(** * web-proxy: the policy gate, the URL codec and the two request handlers
    of [src/server.js], embedded as Rocq functions.

    Conventions of the embedding.
    - A JavaScript string is a [string]: a sequence of 8-bit units.  Every
      string the handlers inspect character by character (host names, rule
      strings, header names, serialised URLs) is compared, sliced and searched
      unit by unit, exactly as [===], [startsWith], [endsWith] and [slice] do
      on UTF-16 units; text outside ASCII is read as its UTF-8 bytes.
    - The response under construction is the map that Node keeps behind
      [res.setHeader]: lower-cased header name to (name as given, value).
    - What the program gets from its platform (the URL class, [fetch], the
      HTML parser) is an argument of the handlers (section [Handlers]);
      [Fixture] is a small concrete platform for running them.
    - Headers that Express and Node add on their own when a response is
      written (content-length, etag, connection) are outside the model: the
      response holds what the program sets with [res.setHeader]. *)

From Stdlib Require Import Ascii String List ZArith Bool Lia.
From stdpp Require Import base option list strings gmap fin_maps.

Import ListNotations.
Set Warnings "-register-all".
Local Open Scope string_scope.
Local Open Scope list_scope.

(** ** JavaScript string primitives *)

Module JS.

(** [s.startsWith(p)] *)
Fixpoint startsWith (s p : string) : bool :=
  match p, s with
  | EmptyString, _ => true
  | String c p', String d s' => if Ascii.eqb c d then startsWith s' p' else false
  | String _ _, EmptyString => false
  end.

(** [s.slice(n)] for a non-negative [n]: the units of [s] from index [n] on. *)
Fixpoint slice (n : nat) (s : string) : string :=
  match n, s with
  | O, _ => s
  | S n', String _ s' => slice n' s'
  | S _, EmptyString => EmptyString
  end.

(** [s.slice(0, n)]: the units of [s] before index [n]. *)
Fixpoint take (n : nat) (s : string) : string :=
  match n, s with
  | S n', String c s' => String c (take n' s')
  | _, _ => EmptyString
  end.

(** [s.endsWith(p)]: with [start = s.length - p.length], false when
    [start < 0], otherwise whether the units of [s] from [start] are [p]. *)
Definition endsWith (s p : string) : bool :=
  if Nat.ltb (String.length s) (String.length p) then false
  else String.eqb (slice (String.length s - String.length p) s) p.

(** [!s] on a string: only the empty string is falsy. *)
Definition falsy (s : string) : bool :=
  match s with EmptyString => true | _ => false end.

(** [s.split(sep)] for a one-unit separator. *)
Fixpoint split (sep : ascii) (s : string) : list string :=
  match s with
  | EmptyString => [EmptyString]
  | String c s' =>
      if Ascii.eqb c sep then EmptyString :: split sep s'
      else match split sep s' with
           | [] => [String c EmptyString]
           | w :: ws => String c w :: ws
           end
  end.

(** [c.toLowerCase()] on one ASCII unit, and [s.toLowerCase()]. *)
Definition lower_ascii (c : ascii) : ascii :=
  let n := nat_of_ascii c in
  if (Nat.leb 65 n && Nat.leb n 90)%bool then ascii_of_nat (n + 32) else c.

Fixpoint toLowerCase (s : string) : string :=
  match s with
  | EmptyString => EmptyString
  | String c s' => String (lower_ascii c) (toLowerCase s')
  end.

(** [xs.includes(x)] on an array of strings. *)
Definition includes (xs : list string) (x : string) : bool :=
  existsb (String.eqb x) xs.

End JS.

(** ** Configuration (server.js, lines 11-16) *)

(** [(process.env.X || '').split(',').filter(Boolean)] *)
Definition rules_of_env (v : option string) : list string :=
  let raw := match v with
             | Some s => if JS.falsy s then EmptyString else s
             | None => EmptyString
             end in
  List.filter (fun r => negb (JS.falsy r)) (JS.split "," raw).

(** A JavaScript number as [parseInt] returns it: [NaN] or an integer. *)
Inductive jsint : Type :=
  | NaN : jsint
  | Int : Z -> jsint.

Record Config : Type := mkConfig {
  MAX_BODY_MB : jsint;
  ALLOWLIST : list string;
  BLOCKLIST : list string;
  ENABLE_REWRITE : bool
}.

(** The process environment, as far as the configuration reads it.
    [env_MAX_BODY_MB] is the value of
    [parseInt(process.env.MAX_BODY_MB || '64', 10)]. *)
Record Env : Type := mkEnv {
  env_MAX_BODY_MB : jsint;
  env_ALLOWLIST : option string;
  env_BLOCKLIST : option string;
  env_ENABLE_REWRITE : option string
}.

Definition load_config (e : Env) : Config :=
  {| MAX_BODY_MB := env_MAX_BODY_MB e;
     ALLOWLIST := rules_of_env (env_ALLOWLIST e);
     BLOCKLIST := rules_of_env (env_BLOCKLIST e);
     ENABLE_REWRITE :=
       match env_ENABLE_REWRITE e with
       | Some s => negb (String.eqb s "false")
       | None => true
       end |}.

(** ** The URL objects of the platform *)

(** The properties of a [URL] object that the program reads. *)
Record URLObj : Type := mkURL {
  href : string;        (* also [toString()] *)
  protocol : string;    (* scheme with its colon *)
  hostname : string;
  origin : string;
  pathname : string;
  search : string       (* empty, or [?] and the query *)
}.

(** ** Policy evaluator (server.js, lines 34-49) *)

(** The arrow function given to [list.some] in [matchesList]. *)
Definition rule_test (host rule : string) : bool :=
  if JS.startsWith rule "*." then JS.endsWith host (JS.slice 1 rule)
  else String.eqb host rule.

Definition matchesList (host : string) (list : list string) : bool :=
  if JS.falsy host then false
  else existsb (rule_test host) list.

(** [xs.length] used as a condition. *)
Definition nonempty {A} (xs : list A) : bool :=
  match xs with [] => false | _ => true end.

Definition isAllowed (cfg : Config) (urlObj : URLObj) : bool :=
  let host := hostname urlObj in
  if (nonempty (BLOCKLIST cfg) && matchesList host (BLOCKLIST cfg))%bool then false
  else if (nonempty (ALLOWLIST cfg) && negb (matchesList host (ALLOWLIST cfg)))%bool then false
  else true.

(** ** URL codec (server.js, lines 51-62, and the decoding done for line 66) *)

Module Codec.

(** *** [encodeURIComponent] *)

(** The units [encodeURIComponent] leaves alone:
    [A-Z a-z 0-9 - _ . ! ~ * ' ( )]. *)
Definition unreserved (c : ascii) : bool :=
  let n := nat_of_ascii c in
  ((Nat.leb 65 n && Nat.leb n 90) || (Nat.leb 97 n && Nat.leb n 122)
   || (Nat.leb 48 n && Nat.leb n 57)
   || existsb (Nat.eqb n) [45; 95; 46; 33; 126; 42; 39; 40; 41])%bool.

Definition hex_digit (n : nat) : ascii :=
  ascii_of_nat (if Nat.ltb n 10 then 48 + n else 55 + n).

(** [%XX], upper-case hexadecimal, for one byte. *)
Definition escape (c : ascii) (tail : string) : string :=
  let n := nat_of_ascii c in
  String "%" (String (hex_digit (n / 16)) (String (hex_digit (n mod 16)) tail)).

(** Every unit outside the unreserved set is written as the escapes of its
    UTF-8 bytes; a unit of the embedding is one such byte.  (On a lone
    surrogate JavaScript throws; a byte string has none.) *)
Fixpoint encodeURIComponent (s : string) : string :=
  match s with
  | EmptyString => EmptyString
  | String c s' =>
      if unreserved c then String c (encodeURIComponent s')
      else escape c (encodeURIComponent s')
  end.

(** *** Decoding a query string *)

Definition hex_value (c : ascii) : option nat :=
  let n := nat_of_ascii c in
  if (Nat.leb 48 n && Nat.leb n 57)%bool then Some (n - 48)
  else if (Nat.leb 65 n && Nat.leb n 70)%bool then Some (n - 55)
  else if (Nat.leb 97 n && Nat.leb n 102)%bool then Some (n - 87)
  else None.

(** Percent-decoding of a form-encoded component: [+] is a space, [%XX] is
    the byte [XX], a [%] not followed by two hexadecimal digits stays. *)
Fixpoint form_decode (s : string) : string :=
  match s with
  | EmptyString => EmptyString
  | String c s' =>
      if Ascii.eqb c "+" then String " " (form_decode s')
      else if Ascii.eqb c "%" then
        match s' with
        | String a (String b s'') =>
            match hex_value a, hex_value b with
            | Some h, Some l => String (ascii_of_nat (16 * h + l)) (form_decode s'')
            | _, _ => String c (form_decode s')
            end
        | _ => String c (form_decode s')
        end
      else String c (form_decode s')
  end.

(** The text before and after the first occurrence of [sep], if any. *)
Fixpoint cut (sep : ascii) (s : string) : option (string * string) :=
  match s with
  | EmptyString => None
  | String c s' =>
      if Ascii.eqb c sep then Some (EmptyString, s')
      else match cut sep s' with
           | Some (a, b) => Some (String c a, b)
           | None => None
           end
  end.

(** One [name=value] piece of a query, decoded. *)
Definition pair_of (piece : string) : string * string :=
  match cut "=" piece with
  | Some (k, v) => (form_decode k, form_decode v)
  | None => (form_decode piece, EmptyString)
  end.

(** The value of the first parameter called [name] in the query [q]
    (the text after [?]): what [searchParams.get(name)] returns, and what
    [req.query[name]] is when the parameter occurs once. *)
Definition query_get (name q : string) : option string :=
  let pieces := List.filter (fun p => negb (JS.falsy p)) (JS.split "&" q) in
  match List.find (fun kv => String.eqb (fst kv) name) (List.map pair_of pieces) with
  | Some kv => Some (snd kv)
  | None => None
  end.

(** [req.query[name]] for a request target [path?query]. *)
Definition req_query (name target : string) : option string :=
  match cut "?" target with
  | Some (_, q) => query_get name q
  | None => None
  end.

(** [url.searchParams.get(name)] *)
Definition searchParams_get (name : string) (u : URLObj) : option string :=
  query_get name (JS.slice 1 (search u)).

End Codec.

(** ** The document tree the HTML library hands out *)

Definition attribs : Type := list (string * string).

Inductive node : Type :=
  | Element (tag : string) (attrs : attribs) (children : list node)
  | Text (data : string).

(** [$(el).attr(name)] *)
Fixpoint attr_get (name : string) (a : attribs) : option string :=
  match a with
  | [] => None
  | (k, v) :: a' => if String.eqb k name then Some v else attr_get name a'
  end.

(** [$(el).attr(name, value)]: the attribute keeps its place when it is
    there and is added at the end when it is not. *)
Fixpoint attr_set (name value : string) (a : attribs) : attribs :=
  match a with
  | [] => [(name, value)]
  | (k, v) :: a' =>
      if String.eqb k name then (k, value) :: a' else (k, v) :: attr_set name value a'
  end.

(** The elements of a tree in document order. *)
Fixpoint elements (n : node) : list (string * attribs) :=
  match n with
  | Text _ => []
  | Element t a cs => (t, a) :: flat_map elements cs
  end.

(** ** Requests, responses and what the handlers do to the outside *)

Record Request : Type := mkRequest {
  req_method : string;
  req_url : string;                    (* the request target, [path?query] *)
  req_headers : gmap string string;    (* [req.headers]: lower-cased names *)
  req_body : list string               (* the chunks [for await] yields *)
}.

(** The arguments of the call to [fetch] (lines 113-118); [redirect] is
    always ['manual']. *)
Record FetchRequest : Type := mkFetch {
  fetch_url : string;
  fetch_method : string;
  fetch_headers : gmap string string;
  fetch_body : option string           (* [undefined], or the whole body *)
}.

Record Upstream : Type := mkUpstream {
  up_status : Z;
  up_headers : list (string * string); (* as iterating [upstream.headers] yields them *)
  up_body : string
}.

(** How the handler finishes a response. *)
Inductive Body : Type :=
  | Sent (text : string)       (* [res.send(text)] *)
  | SentDocument (doc : node)  (* [res.send($.html())] of this tree *)
  | Piped (bytes : string)     (* [pipe(upstream.body, res)] *)
  | Ended.                     (* [res.end()] *)

(** The response as the program leaves it: the status it set with
    [res.status], the headers it set with [res.setHeader], and the call that
    finishes it.  What Express does inside [res.send] is not the program's
    and is not in the record: [res.send] writes [Content-Length] anew,
    writes [Content-Type] when there is none and an [ETag] when there is
    none, and answers a conditional GET that is still fresh with 304 and no
    body.  So for a response finished by [Sent] or [SentDocument] the record
    tells the headers of the client for every name but [content-type],
    [content-length] and [etag], and the status unless the request was
    conditional. *)
Record Response : Type := mkResponse {
  status : Z;
  headers : gmap string (string * string);
  body : Body
}.

(** What a run of a handler did besides answering: the calls to [isAllowed]
    and to [fetch], in order. *)
Inductive Event : Type :=
  | PolicyCheck (host : string) (verdict : bool)
  | Fetch (r : FetchRequest).

(** A handler answers, or an exception leaves it. *)
Inductive Outcome : Type :=
  | Responded (r : Response)
  | Threw.

(** The end of an upgrade request: [socket.destroy()], or
    [proxy.ws(req, socket, head, { target })]. *)
Inductive WsOutcome : Type :=
  | Destroyed
  | Tunnel (target : string).

(** [res.setHeader(name, value)] *)
Definition setHeader (name value : string)
    (h : gmap string (string * string)) : gmap string (string * string) :=
  <[JS.toLowerCase name := (name, value)]> h.

(** [values.join(sep)] *)
Fixpoint join (sep : string) (values : list string) : string :=
  match values with
  | [] => EmptyString
  | [v] => v
  | v :: vs => v +:+ sep +:+ join sep vs
  end.

(** [upstream.headers.get(name)] for a lower-case [name]: [null] when no
    header has that name, else the values under it joined by a comma and a
    space. *)
Definition headers_get (name : string) (h : list (string * string)) : option string :=
  match List.filter (fun kv => String.eqb (JS.toLowerCase (fst kv)) name) h with
  | [] => None
  | kvs => Some (join ", " (List.map snd kvs))
  end.

(** A value used as a condition: [null], [undefined] and [''] are falsy. *)
Definition truthy (v : option string) : option string :=
  match v with
  | Some s => if JS.falsy s then None else Some s
  | None => None
  end.

(** [size > MAX_BODY_MB * 1024 * 1024]; a comparison with [NaN] is false. *)
Definition exceeds (size : Z) (max_mb : jsint) : bool :=
  match max_mb with
  | NaN => false
  | Int m => Z.ltb (m * 1024 * 1024) size
  end.

(** The loop of lines 99-107: [None] when a chunk takes the size over the
    limit, else the chunks read. *)
Fixpoint guard_body (max_mb : jsint) (size : Z) (chunks incoming : list string)
    : option (list string) :=
  match incoming with
  | [] => Some chunks
  | chunk :: rest =>
      let size' := (size + Z.of_nat (String.length chunk))%Z in
      if exceeds size' max_mb then None
      else guard_body max_mb size' (chunks ++ [chunk]) rest
  end.

(** [Buffer.concat(chunks)] *)
Definition concat_chunks (chunks : list string) : string :=
  fold_right String.append EmptyString chunks.

(** Lines 85-92: the headers sent upstream. *)
Definition upstream_headers (h : gmap string string) : gmap string string :=
  let h := delete "accept-encoding" (delete "referer" (delete "origin" (delete "host" h))) in
  <["user-agent" :=
     match truthy (h !! "user-agent") with
     | Some ua => ua
     | None => "Mozilla/5.0 (ProxyRender/1.0)"
     end]> h.

Definition hopByHop : list string :=
  ["connection"; "keep-alive"; "proxy-authenticate"; "proxy-authorization";
   "te"; "trailers"; "transfer-encoding"; "upgrade"].

Definition framing : list string :=
  ["x-frame-options"; "content-security-policy"; "content-security-policy-report-only"].

(** Lines 131-137: one turn of the loop over the upstream headers. *)
Definition relay_header (h : gmap string (string * string)) (kv : string * string)
    : gmap string (string * string) :=
  let k := fst kv in
  if JS.includes hopByHop (JS.toLowerCase k) then h
  else if JS.includes framing (JS.toLowerCase k) then h
  else setHeader k (snd kv) h.

Definition relay_headers (up : list (string * string))
    (h : gmap string (string * string)) : gmap string (string * string) :=
  fold_left relay_header up h.

(** Lines 22-25: the headers the CORS middleware sets on every response. *)
Definition cors_headers : gmap string (string * string) :=
  setHeader "Access-Control-Allow-Headers" "Content-Type,Range"
    (setHeader "Access-Control-Allow-Methods" "GET,POST,HEAD,OPTIONS"
       (setHeader "Access-Control-Allow-Origin" "*" ∅)).

(** The two ways a response body is produced (lines 150-153 and 155-216). *)
Inductive Path : Type :=
  | StreamingPath
  | RewritePath.

(** Line 146: [upstream.headers.get('content-type') || ''] *)
Definition contentType (up : list (string * string)) : string :=
  match truthy (headers_get "content-type" up) with
  | Some ct => ct
  | None => EmptyString
  end.

(** Lines 147-150 *)
Definition select_path (cfg : Config) (up : list (string * string)) : Path :=
  let isHtml := JS.startsWith (contentType up) "text/html" in
  if (negb isHtml || negb (ENABLE_REWRITE cfg))%bool then StreamingPath else RewritePath.

(** The double quote, as a one-unit string. *)
Definition dquote : string := String (ascii_of_nat 34) EmptyString.

(** ** The handlers, over the platform they run on *)

Section Handlers.

(** [new URL(input)] and [new URL(input, base)]; [None] when the
    constructor throws. *)
Variable new_URL : string -> option string -> option URLObj.

(** [await fetch(url, options)]; [None] when the promise rejects. *)
Variable fetch : FetchRequest -> option Upstream.

(** [cheerio.load(text)] *)
Variable load_html : string -> node.

(** The nodes the HTML library parses out of a piece of markup, as
    [$('head').prepend(markup)] does with its argument. *)
Variable parse_fragment : string -> list node.

Variable cfg : Config.

(** Lines 51-57 *)
Definition absoluteUrl (base : URLObj) (href_ : string) : option string :=
  match new_URL href_ (Some (href base)) with
  | Some u => Some (href u)
  | None => None
  end.

(** Lines 59-62; [None] when [new URL(targetUrl)] throws. *)
Definition toProxyUrl (targetUrl : string) : option string :=
  match new_URL targetUrl None with
  | Some u => Some ("/proxy?url=" +:+ Codec.encodeURIComponent (href u))
  | None => None
  end.

(** *** HTML rewrite engine (lines 155-212) *)

(** What happens to one attribute value [v] in the three rewriting loops:
    [Some None] leaves it, [Some (Some p)] replaces it by [p], [None] is
    an exception thrown by [toProxyUrl]. *)
Definition rewrite_value (targetUrl : URLObj) (v : string) : option (option string) :=
  match truthy (absoluteUrl targetUrl v) with
  | None => Some None
  | Some abs =>
      match toProxyUrl abs with
      | Some p => Some (Some p)
      | None => None
      end
  end.

Definition rewrite_attr (targetUrl : URLObj) (name v : string) (a : attribs)
    : option attribs :=
  match rewrite_value targetUrl v with
  | None => None
  | Some None => Some a
  | Some (Some p) => Some (attr_set name p a)
  end.

(** [$('a[href]').each(...)] and [$('form[action]').each(...)], on one
    element: the selector wants the tag and the presence of the attribute. *)
Definition on_selected (targetUrl : URLObj) (sel_tag name : string)
    (tag : string) (a : attribs) : option attribs :=
  if String.eqb tag sel_tag then
    match attr_get name a with
    | Some v => rewrite_attr targetUrl name v a
    | None => Some a
    end
  else Some a.

Definition resource_tags : list string :=
  ["img"; "script"; "link"; "source"; "video"; "audio"].

(** [$('img,script,link,source,video,audio').each(...)] for one of the
    attributes [src] and [href], on one element; [if (!val) return]
    skips an absent and an empty value. *)
Definition on_resource (targetUrl : URLObj) (name : string)
    (tag : string) (a : attribs) : option attribs :=
  if JS.includes resource_tags tag then
    match truthy (attr_get name a) with
    | Some v => rewrite_attr targetUrl name v a
    | None => Some a
    end
  else Some a.

(** A loop [$(selector).each(f)]: [f] on every element, in document order. *)
Fixpoint each_element (f : string -> attribs -> option attribs) (n : node)
    : option node :=
  match n with
  | Text d => Some (Text d)
  | Element t a cs =>
      match f t a with
      | None => None
      | Some a' =>
          match
            (fix each_child (l : list node) : option (list node) :=
               match l with
               | [] => Some []
               | c :: l' =>
                   match each_element f c with
                   | None => None
                   | Some c' =>
                       match each_child l' with
                       | None => None
                       | Some l'' => Some (c' :: l'')
                       end
                   end
               end) cs
          with
          | None => None
          | Some cs' => Some (Element t a' cs')
          end
      end
  end.

(** [$('head')]: a change of the children of every [head] element. *)
Fixpoint on_heads (f : list node -> list node) (n : node) : node :=
  match n with
  | Text d => Text d
  | Element t a cs =>
      let cs' := List.map (on_heads f) cs in
      Element t a (if String.eqb t "head" then f cs' else cs')
  end.

(** The template literal of line 160, [<base href="${targetUrl.toString()}">]:
    the serialised URL is put between the quotes as it is. *)
Definition base_markup (targetUrl : URLObj) : string :=
  "<base href=" +:+ dquote +:+ href targetUrl +:+ dquote +:+ ">".

(** What [$('head').prepend(...)] puts first in a head: the nodes the
    library parses out of that markup. *)
Definition base_nodes (targetUrl : URLObj) : list node :=
  parse_fragment (base_markup targetUrl).

(** The nodes parsed from the template of lines 188-212: the script
    element between two runs of white space. *)
Definition injected_script : list node :=
  [Text "
    ";
   Element "script" []
     [Text "
    (function(){
      const toProxy = u => '/proxy?url=' + encodeURIComponent(new URL(u, document.baseURI).toString());
      document.addEventListener('click', function(e){
        const a = e.target.closest('a[href]');
        if (a && !a.target) {
          e.preventDefault();
          location.href = toProxy(a.href);
        }
      }, true);
      // Intercept fetch/XHR navigations lightly (best effort)
      const origFetch = window.fetch;
      window.fetch = function(input, init){
        try {
          const url = typeof input === 'string' ? input : input.url;
          const abs = new URL(url, document.baseURI).toString();
          return origFetch(toProxy(abs), init);
        } catch {
          return origFetch(input, init);
        }
      };
    })();
    "];
   Text "
  "].

(** Lines 163-185: the four loops that rewrite attributes, in order. *)
Definition rewrite_links (targetUrl : URLObj) (doc : node) : option node :=
  match each_element (on_selected targetUrl "a" "href") doc with
  | None => None
  | Some d1 =>
      match each_element (on_resource targetUrl "src") d1 with
      | None => None
      | Some d2 =>
          match each_element (on_resource targetUrl "href") d2 with
          | None => None
          | Some d3 => each_element (on_selected targetUrl "form" "action") d3
          end
      end
  end.

(** Lines 160-212 *)
Definition rewrite_html (targetUrl : URLObj) (doc : node) : option node :=
  let d0 := on_heads (fun cs => base_nodes targetUrl ++ cs) doc in
  match rewrite_links targetUrl d0 with
  | None => None
  | Some d => Some (on_heads (fun cs => cs ++ injected_script) d)
  end.

(** *** The [/proxy] handler (lines 65-217) *)

(** [res.status(code).send(text)]: the status and the text the handler gives,
    over the headers set so far, which are those of the CORS middleware;
    the headers [res.send] writes for the text are not in the record (see
    [Response]). *)
Definition error_response (code : Z) (text : string) : Outcome :=
  Responded {| status := code; headers := cors_headers; body := Sent text |}.

(** Lines 139-144: the headers after the redirect block; [None] when
    [toProxyUrl] throws. *)
Definition relay_location (targetUrl : URLObj) (up : list (string * string))
    (h : gmap string (string * string)) : option (gmap string (string * string)) :=
  match truthy (headers_get "location" up) with
  | None => Some h
  | Some location =>
      match truthy (absoluteUrl targetUrl location) with
      | None => Some h
      | Some abs =>
          match toProxyUrl abs with
          | Some p => Some (setHeader "Location" p h)
          | None => None
          end
      end
  end.

(** Lines 123-216: from the upstream response to the call that finishes the
    answer, [pipe] on the Streaming Path and [res.send] on the Rewrite
    Path. *)
Definition respond (targetUrl : URLObj) (upstream : Upstream) : Outcome :=
  let h := relay_headers (up_headers upstream) cors_headers in
  match relay_location targetUrl (up_headers upstream) h with
  | None => Threw
  | Some h' =>
      match select_path cfg (up_headers upstream) with
      | StreamingPath =>
          Responded {| status := up_status upstream; headers := h';
                       body := Piped (up_body upstream) |}
      | RewritePath =>
          match rewrite_html targetUrl (load_html (up_body upstream)) with
          | None => Threw
          | Some doc =>
              Responded {| status := up_status upstream;
                           headers := setHeader "content-type" "text/html; charset=utf-8" h';
                           body := SentDocument doc |}
          end
      end
  end.

(** Lines 95-109: [None] is the 413 answer, [Some body] the body to send. *)
Definition read_body (req : Request) : option (option string) :=
  if (negb (String.eqb (req_method req) "GET")
      && negb (String.eqb (req_method req) "HEAD"))%bool then
    match guard_body (MAX_BODY_MB cfg) 0 [] (req_body req) with
    | None => None
    | Some chunks => Some (Some (concat_chunks chunks))
    end
  else Some None.

Definition proxy_handler (req : Request) : list Event * Outcome :=
  match truthy (Codec.req_query "url" (req_url req)) with
  | None => ([], error_response 400 "Missing ?url=")
  | Some target =>
      match new_URL target None with
      | None => ([], error_response 400 "Invalid URL")
      | Some targetUrl =>
          if negb (JS.includes ["http:"; "https:"] (protocol targetUrl)) then
            ([], error_response 400 "Only http/https are supported")
          else
            let verdict := isAllowed cfg targetUrl in
            let checked := [PolicyCheck (hostname targetUrl) verdict] in
            if negb verdict then (checked, error_response 403 "Blocked by policy")
            else
              match read_body req with
              | None => (checked, error_response 413 "Payload too large")
              | Some body =>
                  let call := {| fetch_url := href targetUrl;
                                 fetch_method := req_method req;
                                 fetch_headers := upstream_headers (req_headers req);
                                 fetch_body := body |} in
                  match fetch call with
                  | None =>
                      (checked ++ [Fetch call], error_response 502 "Upstream fetch failed")
                  | Some upstream =>
                      (checked ++ [Fetch call], respond targetUrl upstream)
                  end
              end
      end
  end.

(** Lines 22-28 and 65: a request for [/proxy] goes through the CORS
    middleware before it reaches the handler. *)
Definition app_proxy (req : Request) : list Event * Outcome :=
  if String.eqb (req_method req) "OPTIONS" then
    ([], Responded {| status := 200; headers := cors_headers; body := Ended |})
  else proxy_handler req.

(** *** The upgrade handler (lines 228-243) *)

Definition upgrade_handler (req : Request) : list Event * WsOutcome :=
  match new_URL (req_url req) (Some "http://localhost") with
  | None => ([], Destroyed)
  | Some url =>
      if negb (String.eqb (pathname url) "/ws") then ([], Destroyed)
      else
        match truthy (Codec.searchParams_get "url" url) with
        | None => ([], Destroyed)
        | Some target =>
            match new_URL target None with
            | None => ([], Destroyed)
            | Some targetUrl =>
                let verdict := isAllowed cfg targetUrl in
                let checked := [PolicyCheck (hostname targetUrl) verdict] in
                if negb verdict then (checked, Destroyed)
                else (checked, Tunnel (origin targetUrl))
            end
        end
  end.

End Handlers.

(** ** A small platform on which the handlers can be run

    Every theorem below is stated for an arbitrary platform.  To evaluate the
    handlers on concrete requests one needs a concrete URL class; this one
    follows the URL Standard on the inputs of these shapes and answers
    [None] on every other input:
    - [scheme://host] followed by an optional path, query and fragment, for
      the schemes http, https, ws, wss and ftp, a host of letters and dots
      (lower-cased), and a path, query and fragment made of units that the
      parser copies as they are (no dot segments);
    - [scheme:rest] for another scheme, where [rest] does not begin with a
      slash (a URL with an opaque path, such as [javascript:] and [mailto:]);
    - with a base of the first shape: the empty reference, and a reference
      that begins with a single slash.
    A host with a unit that the Standard forbids in hosts (a space, say) is a
    failure there as it is here. *)

Module Fixture.

Definition is_alpha (c : ascii) : bool :=
  let n := nat_of_ascii c in
  ((Nat.leb 65 n && Nat.leb n 90) || (Nat.leb 97 n && Nat.leb n 122))%bool.

Definition is_digit (c : ascii) : bool :=
  let n := nat_of_ascii c in (Nat.leb 48 n && Nat.leb n 57)%bool.

Definition one_of (set : string) (c : ascii) : bool :=
  existsb (Ascii.eqb c) (list_ascii_of_string set).

Fixpoint all_units (p : ascii -> bool) (s : string) : bool :=
  match s with
  | EmptyString => true
  | String c s' => (p c && all_units p s')%bool
  end.

(** Whether [p] occurs in [s]. *)
Fixpoint contains (s p : string) : bool :=
  (JS.startsWith s p ||
   match s with
   | EmptyString => false
   | String _ s' => contains s' p
   end)%bool.

(** The scheme and what follows its colon. *)
Fixpoint scan_scheme (s : string) : option (string * string) :=
  match s with
  | EmptyString => None
  | String c s' =>
      if Ascii.eqb c ":" then Some (EmptyString, s')
      else if (is_alpha c || is_digit c || one_of "+-." c)%bool then
        match scan_scheme s' with
        | Some (a, b) => Some (String c a, b)
        | None => None
        end
      else None
  end.

Definition split_scheme (s : string) : option (string * string) :=
  match s with
  | String c _ => if is_alpha c then scan_scheme s else None
  | EmptyString => None
  end.

(** The text before the first unit in [stop], and the rest from that unit. *)
Fixpoint break (stop : ascii -> bool) (s : string) : string * string :=
  match s with
  | EmptyString => (EmptyString, EmptyString)
  | String c s' =>
      if stop c then (EmptyString, s)
      else let '(a, b) := break stop s' in (String c a, b)
  end.

Definition special : list string := ["http"; "https"; "ws"; "wss"; "ftp"].

(** Units that the path, query and fragment states copy unchanged. *)
Definition plain (c : ascii) : bool :=
  (is_alpha c || is_digit c || one_of "-_.~!$&()*+,;=:@/" c)%bool.

(** Path, query and fragment of [tail], when each is made of copied units. *)
Definition split_tail (opaque : bool) (tail : string) : option (string * string * string) :=
  let '(path, rest) := break (one_of "?#") tail in
  let '(query, fragment) := break (one_of "#") rest in
  if (all_units (fun c => plain c || (opaque && Ascii.eqb c "%")) path
      && negb (contains path "/.")
      && all_units (fun c => plain c || one_of "?%" c) query
      && all_units (fun c => plain c || one_of "?%#" c) fragment)%bool
  then Some (path, query, fragment) else None.

(** [url.search]: empty when the query is empty or a lone [?]. *)
Definition search_of (query : string) : string :=
  if String.eqb query "?" then EmptyString else query.

(** A URL without a base, and whether its scheme is special. *)
Definition parse_absolute (input : string) : option (URLObj * bool) :=
  match split_scheme input with
  | None => None
  | Some (scheme0, rest) =>
      let scheme := JS.toLowerCase scheme0 in
      if JS.includes special scheme then
        if JS.startsWith rest "//" then
          let '(authority, tail) := break (one_of "/?#") (JS.slice 2 rest) in
          let host := JS.toLowerCase authority in
          if (negb (JS.falsy host) && all_units (fun c => is_alpha c || Ascii.eqb c ".") host)%bool
          then
            match split_tail false tail with
            | Some (path, query, fragment) =>
                let path := if JS.falsy path then "/" else path in
                let org := scheme +:+ "://" +:+ host in
                Some ({| href := org +:+ path +:+ query +:+ fragment;
                         protocol := scheme +:+ ":";
                         hostname := host;
                         origin := org;
                         pathname := path;
                         search := search_of query |}, true)
            | None => None
            end
          else None
        else None
      else if (JS.startsWith rest "/" || String.eqb scheme "file")%bool then None
      else
        match split_tail true rest with
        | Some (path, query, fragment) =>
            Some ({| href := scheme +:+ ":" +:+ path +:+ query +:+ fragment;
                     protocol := scheme +:+ ":";
                     hostname := EmptyString;
                     origin := "null";
                     pathname := path;
                     search := search_of query |}, false)
        | None => None
        end
  end.

Definition parse_relative (input : string) (base : URLObj) : option URLObj :=
  if JS.falsy input then
    Some {| href := fst (break (one_of "#") (href base));
            protocol := protocol base; hostname := hostname base;
            origin := origin base; pathname := pathname base;
            search := search base |}
  else if (JS.startsWith input "/" && negb (JS.startsWith input "//"))%bool then
    match split_tail false input with
    | Some (path, query, fragment) =>
        Some {| href := origin base +:+ path +:+ query +:+ fragment;
                protocol := protocol base; hostname := hostname base;
                origin := origin base; pathname := path;
                search := search_of query |}
    | None => None
    end
  else None.

Definition new_URL (input : string) (base : option string) : option URLObj :=
  match base with
  | None => option_map fst (parse_absolute input)
  | Some b =>
      match parse_absolute b with
      | None => None
      | Some (bu, special_base) =>
          match split_scheme input with
          | Some _ => option_map fst (parse_absolute input)
          | None => if special_base then parse_relative input bu else None
          end
      end
  end.

(** [cheerio.load] on a text without markup, which becomes the one child of
    [body], and on the one snippet the examples use. *)
Definition load_html (text : string) : node :=
  Element "html" []
    [Element "head" [] [];
     Element "body" []
       (if JS.falsy text then []
        else if String.eqb text "<a href='/about'>About</a>"
             then [Element "a" [("href", "/about")] [Text "About"]]
             else [Text text])].

(** [new URL('http://example.com/index.html')] *)
Definition example_target : URLObj :=
  {| href := "http://example.com/index.html"; protocol := "http:";
     hostname := "example.com"; origin := "http://example.com";
     pathname := "/index.html"; search := "" |}.

(** The parser on the markup of a [base] element whose [href] is made of
    units that stand for themselves in a quoted attribute value. *)
Definition parse_fragment (markup : string) : list node :=
  let value := JS.take (String.length markup - 14) (JS.slice 12 markup) in
  if (String.eqb markup ("<base href=" +:+ dquote +:+ value +:+ dquote +:+ ">")
      && all_units (fun c => plain c || one_of "?%#" c) value)%bool
  then [Element "base" [("href", value)] []]
  else [Text markup].

(** The configuration of a process started with an empty environment. *)
Definition default_config : Config :=
  load_config {| env_MAX_BODY_MB := Int 64; env_ALLOWLIST := None;
                 env_BLOCKLIST := None; env_ENABLE_REWRITE := None |}.

(** A request without headers. *)
Definition request (method target : string) (chunks : list string) : Request :=
  {| req_method := method; req_url := target; req_headers := ∅; req_body := chunks |}.

(** An upstream that gives the same answer to every call. *)
Definition always (answer : Upstream) : FetchRequest -> option Upstream :=
  fun _ => Some answer.

End Fixture.

(** ** The policy in the words of the specification *)

(** "A hostname matches a rule if it equals the rule exactly, or the rule
    starts with [*.] and the hostname ends with the rule's suffix (the
    literal text after the [*], including the leading dot)"; the two cases
    are told apart by whether the rule starts with [*.]. *)
Definition spec_matches (h r : string) : Prop :=
  (~ (exists suffix, r = "*." +:+ suffix) /\ h = r)
  \/ (exists suffix pre, r = "*." +:+ suffix /\ h = pre +:+ "." +:+ suffix).

(** "Reject if hostname matches any block-rule; else reject if allow-rules
    is non-empty and hostname matches none of them; else accept." *)
Definition spec_rejects (block allow : list string) (h : string) : Prop :=
  (exists r, In r block /\ spec_matches h r)
  \/ (allow <> [] /\ forall r, In r allow -> ~ spec_matches h r).

(** [s] has no unit [c]. *)
Fixpoint avoids (c : ascii) (s : string) : Prop :=
  match s with
  | EmptyString => True
  | String d s' => d <> c /\ avoids c s'
  end.

(** ** Header relay, read back *)

(** Whether the relay loop drops the header called [name] (lower case). *)
Definition dropped (name : string) : bool :=
  (JS.includes hopByHop name || JS.includes framing name)%bool.

(** The last header of [up] whose lower-cased name is [name]. *)
Definition last_named (name : string) (up : list (string * string))
    : option (string * string) :=
  List.find (fun kv => String.eqb (JS.toLowerCase (fst kv)) name) (rev up).


(** The number of bytes of a request body. *)
Definition body_size (chunks : list string) : Z :=
  fold_right (fun chunk n => (Z.of_nat (String.length chunk) + n)%Z) 0%Z chunks.

(** ** The rewriting loops, read back *)

(** The loop of [each_element] over the children of an element. *)
Fixpoint each_children (f : string -> attribs -> option attribs) (l : list node)
    : option (list node) :=
  match l with
  | [] => Some []
  | c :: l' =>
      match each_element f c with
      | None => None
      | Some c' =>
          match each_children f l' with
          | None => None
          | Some l'' => Some (c' :: l'')
          end
      end
  end.

(** An element after rewriting, [e'], against the element before, [e]: the
    same tag, and every attribute whose value does not resolve against the
    target URL still there with that value. *)
Definition keeps_unresolved (new_URL : string -> option string -> option URLObj)
    (targetUrl : URLObj) (e e' : string * attribs) : Prop :=
  fst e = fst e'
  /\ forall name v,
       attr_get name (snd e) = Some v ->
       absoluteUrl new_URL targetUrl v = None ->
       attr_get name (snd e') = Some v.

(** Whether one of the loops of lines 163-185 can set the attribute [name]
    of an element [tag]. *)
Definition rewritable (tag name : string) : bool :=
  ((String.eqb tag "a" && String.eqb name "href")
   || (JS.includes resource_tags tag && (String.eqb name "src" || String.eqb name "href"))
   || (String.eqb tag "form" && String.eqb name "action"))%bool.

(** An element after rewriting, [e'], against the element before, [e]: the
    same tag, the same value for every attribute that no loop can set, and
    the same attributes altogether when no loop is about this tag. *)
Definition same_outside (e e' : string * attribs) : Prop :=
  fst e = fst e'
  /\ (forall name, rewritable (fst e) name = false ->
                   attr_get name (snd e') = attr_get name (snd e))
  /\ ((forall name, rewritable (fst e) name = false) -> snd e' = snd e).

(** * Properties *)

(** ** Strings *)

Lemma ascii_eqb_true (c d : ascii) : Ascii.eqb c d = true <-> c = d.
Proof. apply Ascii.eqb_eq. Qed.

Lemma startsWith_iff (s p : string) :
  JS.startsWith s p = true <-> exists t, s = p +:+ t.
Proof.
  revert s. induction p as [|c p IH]; intros s.
  - split; [intros _; now exists s | intros _; now destruct s].
  - destruct s as [|d s]; simpl.
    + split; [discriminate | intros [t Ht]; discriminate].
    + destruct (Ascii.eqb c d) eqn:E.
      * apply Ascii.eqb_eq in E. subst d. rewrite IH.
        split; intros [t Ht]; exists t; [now subst | now inversion Ht].
      * apply Ascii.eqb_neq in E.
        split; [discriminate | intros [t Ht]; inversion Ht; congruence].
Qed.

Lemma append_cons (c : ascii) (a b : string) : String c a +:+ b = String c (a +:+ b).
Proof. reflexivity. Qed.

Lemma append_inj_l (a b c : string) : a +:+ b = a +:+ c -> b = c.
Proof.
  induction a as [|x a IH]; [trivial|].
  rewrite !append_cons. intros H. injection H as H. now apply IH.
Qed.

Lemma length_append (a b : string) :
  String.length (a +:+ b) = String.length a + String.length b.
Proof. induction a as [|c a IH]; simpl; [reflexivity | now rewrite IH]. Qed.

Lemma slice_append (a b : string) : JS.slice (String.length a) (a +:+ b) = b.
Proof. induction a; simpl; [now destruct b | assumption]. Qed.

Lemma take_slice (n : nat) (s : string) : JS.take n s +:+ JS.slice n s = s.
Proof.
  revert s. induction n as [|n IH]; intros [|c s]; simpl; try reflexivity.
  rewrite append_cons. f_equal. apply IH.
Qed.

Lemma endsWith_iff (s p : string) :
  JS.endsWith s p = true <-> exists t, s = t +:+ p.
Proof.
  unfold JS.endsWith. split.
  - destruct (Nat.ltb_spec (String.length s) (String.length p)); [discriminate|].
    intros E. apply String.eqb_eq in E.
    exists (JS.take (String.length s - String.length p) s).
    pose proof (take_slice (String.length s - String.length p) s) as T.
    rewrite E in T. now symmetry.
  - intros [t ->]. rewrite length_append.
    destruct (Nat.ltb_spec (String.length t + String.length p) (String.length p)); [lia|].
    replace (String.length t + String.length p - String.length p)
      with (String.length t) by lia.
    rewrite slice_append. apply String.eqb_refl.
Qed.

Lemma falsy_iff (s : string) : JS.falsy s = true <-> s = EmptyString.
Proof. destruct s; simpl; split; congruence. Qed.

Lemma append_empty_inv (a b : string) : a +:+ b = EmptyString -> a = EmptyString /\ b = EmptyString.
Proof. destruct a; simpl; [auto | discriminate]. Qed.

(** ** Policy evaluator *)

(** The test applied to one rule is the matching rule of the specification. *)
Lemma rule_test_iff (h r : string) : rule_test h r = true <-> spec_matches h r.
Proof.
  unfold rule_test, spec_matches.
  destruct (JS.startsWith r "*.") eqn:E.
  - apply startsWith_iff in E. destruct E as [sfx ->].
    change (JS.slice 1 ("*." +:+ sfx)) with ("." +:+ sfx).
    rewrite endsWith_iff. split.
    + intros [pre ->]. right. now exists sfx, pre.
    + intros [[H _] | (sfx' & pre & Hr & ->)].
      * exfalso. apply H. now exists sfx.
      * apply append_inj_l in Hr. subst sfx'. now exists pre.
  - assert (N : ~ exists sfx, r = "*." +:+ sfx).
    { intros H. apply startsWith_iff in H. congruence. }
    rewrite String.eqb_eq. split.
    + intros ->. now left.
    + intros [[_ H] | (sfx & pre & Hr & _)]; [assumption|].
      exfalso. apply N. now exists sfx.
Qed.

(** The empty host name matches no list. *)
Lemma matchesList_empty_host (l : list string) : matchesList EmptyString l = false.
Proof. reflexivity. Qed.

(** No rule but the empty one is matched by the empty host name. *)
Lemma spec_matches_empty_host (r : string) :
  spec_matches EmptyString r -> r = EmptyString.
Proof.
  intros [[_ H] | (sfx & pre & _ & H)]; [now symmetry|].
  symmetry in H. apply append_empty_inv in H. destruct H as [_ H]. discriminate.
Qed.

Lemma matchesList_iff (h : string) (l : list string) :
  h <> EmptyString \/ ~ In EmptyString l ->
  matchesList h l = true <-> exists r, In r l /\ spec_matches h r.
Proof.
  intros Hne. unfold matchesList. destruct (JS.falsy h) eqn:F.
  - apply falsy_iff in F. subst h. split; [discriminate|].
    intros (r & Hin & Hm). apply spec_matches_empty_host in Hm. subst r.
    destruct Hne as [H | H]; [congruence | contradiction].
  - rewrite existsb_exists. split; intros (r & Hin & Hr); exists r;
      (split; [assumption | now apply rule_test_iff]).
Qed.

(** The rule lists read from the environment hold no empty rule. *)
Lemma rules_of_env_nonempty (v : option string) : ~ In EmptyString (rules_of_env v).
Proof.
  unfold rules_of_env. intros H. apply filter_In in H. destruct H as [_ H]. discriminate.
Qed.

Lemma nonempty_iff {A} (l : list A) : nonempty l = true <-> l <> [].
Proof. destruct l; simpl; split; congruence. Qed.

Lemma isAllowed_rejects (cfg : Config) (u : URLObj) :
  ~ In EmptyString (BLOCKLIST cfg) -> ~ In EmptyString (ALLOWLIST cfg) ->
  isAllowed cfg u = false <-> spec_rejects (BLOCKLIST cfg) (ALLOWLIST cfg) (hostname u).
Proof.
  intros Hb Ha. unfold isAllowed, spec_rejects.
  pose proof (matchesList_iff (hostname u) (BLOCKLIST cfg) (or_intror Hb)) as MB.
  pose proof (matchesList_iff (hostname u) (ALLOWLIST cfg) (or_intror Ha)) as MA.
  destruct (matchesList (hostname u) (BLOCKLIST cfg)) eqn:EB.
  - assert (nonempty (BLOCKLIST cfg) = true) as ->.
    { destruct (proj1 MB eq_refl) as (r & Hin & _). destruct (BLOCKLIST cfg); [destruct Hin | reflexivity]. }
    simpl. split; [intros _; left; now apply MB | reflexivity].
  - rewrite andb_false_r.
    destruct (nonempty (ALLOWLIST cfg)) eqn:EA; simpl.
    + apply nonempty_iff in EA.
      destruct (matchesList (hostname u) (ALLOWLIST cfg)) eqn:EM; simpl.
      * split; [discriminate|].
        intros [H | [_ H]]; [apply MB in H; discriminate|].
        destruct (proj1 MA eq_refl) as (r & Hin & Hm). now destruct (H r Hin).
      * split; [|reflexivity]. intros _. right. split; [assumption|].
        intros r Hin Hm. assert (false = true) by (apply MA; now exists r). discriminate.
    + split; [discriminate|].
      intros [H | [H _]]; [apply MB in H; discriminate|].
      destruct (ALLOWLIST cfg); [now destruct H | discriminate].
Qed.

(** C1. For every host name, [isAllowed] rejects exactly when the host name
    matches a block-rule, or the allow-rule list is non-empty and the host
    name matches none of its rules, and accepts otherwise; the rule lists are
    the ones the process reads from its environment.  So a blocked host is
    rejected whatever the allow-rules are, and with no allow-rule every host
    that is not blocked is accepted. *)
Theorem isAllowed_decision (e : Env) (u : URLObj) :
  let cfg := load_config e in
  let h := hostname u in
  (isAllowed cfg u = false <-> spec_rejects (BLOCKLIST cfg) (ALLOWLIST cfg) h)
  /\ (isAllowed cfg u = true <-> ~ spec_rejects (BLOCKLIST cfg) (ALLOWLIST cfg) h)
  /\ ((exists r, In r (BLOCKLIST cfg) /\ spec_matches h r) -> isAllowed cfg u = false)
  /\ (ALLOWLIST cfg = [] ->
      ~ (exists r, In r (BLOCKLIST cfg) /\ spec_matches h r) ->
      isAllowed cfg u = true).
Proof.
  intros cfg h.
  assert (R : isAllowed cfg u = false <-> spec_rejects (BLOCKLIST cfg) (ALLOWLIST cfg) h).
  { apply isAllowed_rejects; apply rules_of_env_nonempty. }
  split; [exact R|]. split; [|split].
  - rewrite <- R. destruct (isAllowed cfg u); split; congruence.
  - intros H. apply R. now left.
  - intros Ha Hb. destruct (isAllowed cfg u) eqn:E; [reflexivity|].
    destruct (proj1 R eq_refl) as [B | [B _]]; [contradiction | congruence].
Qed.

(** The decision at a configuration with both lists in use. *)
Lemma isAllowed_decision_witness :
  let e := {| env_MAX_BODY_MB := Int 64; env_ALLOWLIST := Some "*.example.com,example.org";
              env_BLOCKLIST := Some "ads.example.com"; env_ENABLE_REWRITE := None |} in
  let u h := {| href := "http://" +:+ h +:+ "/"; protocol := "http:"; hostname := h;
                origin := "http://" +:+ h; pathname := "/"; search := "" |} in
  isAllowed (load_config e) (u "ads.example.com") = false
  /\ isAllowed (load_config e) (u "evil.com") = false
  /\ isAllowed (load_config e) (u "sub.example.com") = true.
Proof.
  intros e u. split; [|split].
  - apply (isAllowed_decision e (u "ads.example.com")).
    exists "ads.example.com". split; [now left | now apply rule_test_iff].
  - reflexivity.
  - reflexivity.
Defined.

(** C2. For every host name [h] and every rule [r] of a rule list (the
    lists hold no empty rule, [rules_of_env_nonempty]): [h] matches [r]
    exactly when [r] does not start with [*.] and [h] equals [r], or [r] is
    [*.suffix] and [h] ends with [.suffix].  [*.example.com] matches
    [sub.example.com] and matches neither [example.com] nor
    [evilexample.com]. *)
Theorem matchesList_rule (h r : string) :
  r <> EmptyString ->
  (matchesList h [r] = true <-> spec_matches h r)
  /\ (forall v : option string,
        matchesList h (rules_of_env v) = true
        <-> exists r', In r' (rules_of_env v) /\ spec_matches h r')
  /\ matchesList "sub.example.com" ["*.example.com"] = true
  /\ matchesList "example.com" ["*.example.com"] = false
  /\ matchesList "evilexample.com" ["*.example.com"] = false.
Proof.
  intros H. split; [|split; [|repeat split]].
  - rewrite matchesList_iff.
    + split.
      * intros (r' & [<- | []] & Hm). exact Hm.
      * intros Hm. exists r. split; [now left | exact Hm].
    + right. intros [E | []]. congruence.
  - intros v. apply matchesList_iff. right. apply rules_of_env_nonempty.
Qed.

(** A rule as the process reads it from [ALLOWLIST=example.org,*.example.com]. *)
Lemma matchesList_rule_witness :
  In "*.example.com" (rules_of_env (Some "example.org,*.example.com"))
  /\ "*.example.com" <> EmptyString
  /\ (matchesList "sub.example.com" ["*.example.com"] = true
      <-> spec_matches "sub.example.com" "*.example.com").
Proof.
  split; [right; now left|]. split; [discriminate|].
  apply (matchesList_rule "sub.example.com" "*.example.com"). discriminate.
Defined.

(** ** URL codec *)

Ltac each_unit c :=
  destruct c as [[] [] [] [] [] [] [] []].

(** The two digits of an escape give the byte back. *)
Lemma escape_digits (c : ascii) :
  let n := nat_of_ascii c in
  Codec.hex_value (Codec.hex_digit (n / 16)) = Some (n / 16)
  /\ Codec.hex_value (Codec.hex_digit (n mod 16)) = Some (n mod 16)
  /\ ascii_of_nat (16 * (n / 16) + n mod 16) = c.
Proof. each_unit c; vm_compute; repeat split. Qed.

(** A unit that is copied is none of the units the decoder and the query
    syntax give a meaning to. *)
Lemma unreserved_literal (c : ascii) :
  Codec.unreserved c = true ->
  c <> "+"%char /\ c <> "%"%char /\ c <> "&"%char /\ c <> "="%char.
Proof. each_unit c; vm_compute; intros H; try discriminate H; repeat split; discriminate. Qed.

Lemma hex_digit_literal (c : ascii) :
  let n := nat_of_ascii c in
  forall d, d = Codec.hex_digit (n / 16) \/ d = Codec.hex_digit (n mod 16) ->
  d <> "&"%char /\ d <> "="%char.
Proof.
  each_unit c; vm_compute; intros d [-> | ->]; split; discriminate.
Qed.

Lemma form_decode_escape (c : ascii) (t : string) :
  Codec.form_decode (Codec.escape c t) = String c (Codec.form_decode t).
Proof.
  destruct (escape_digits c) as (Hh & Hl & Hc).
  unfold Codec.escape. cbn [Codec.form_decode].
  change (Ascii.eqb "%" "+") with false. change (Ascii.eqb "%" "%") with true.
  cbv iota. rewrite Hh, Hl, Hc. reflexivity.
Qed.

Lemma form_decode_literal (c : ascii) (t : string) :
  Codec.unreserved c = true ->
  Codec.form_decode (String c t) = String c (Codec.form_decode t).
Proof.
  intros H. apply unreserved_literal in H. destruct H as (Hp & Hq & _).
  cbn [Codec.form_decode].
  apply Ascii.eqb_neq in Hp, Hq. now rewrite Hp, Hq.
Qed.

(** Decoding undoes [encodeURIComponent], whatever the text. *)
Lemma form_decode_encode (s : string) :
  Codec.form_decode (Codec.encodeURIComponent s) = s.
Proof.
  induction s as [|c s IH]; [reflexivity|].
  cbn [Codec.encodeURIComponent]. destruct (Codec.unreserved c) eqn:E.
  - rewrite form_decode_literal by assumption. now rewrite IH.
  - rewrite form_decode_escape. now rewrite IH.
Qed.

(** An encoded component has no [&] and no [=]. *)
Lemma encode_avoids (c : ascii) (s : string) :
  c = "&"%char \/ c = "="%char -> avoids c (Codec.encodeURIComponent s).
Proof.
  intros Hc. induction s as [|d s IH]; [exact I|].
  cbn [Codec.encodeURIComponent]. destruct (Codec.unreserved d) eqn:E.
  - split; [|exact IH]. apply unreserved_literal in E.
    destruct E as (_ & _ & Ha & He). destruct Hc; congruence.
  - unfold Codec.escape.
    pose proof (hex_digit_literal d _ (or_introl eq_refl)) as [Ha1 He1].
    pose proof (hex_digit_literal d _ (or_intror eq_refl)) as [Ha2 He2].
    cbn [avoids]. repeat split; try exact IH; destruct Hc; subst c;
      try assumption; discriminate.
Qed.

Lemma split_avoids (sep : ascii) (s : string) :
  avoids sep s -> JS.split sep s = [s].
Proof.
  induction s as [|c s IH]; [reflexivity|].
  intros [Hc Hs]. cbn [JS.split]. apply Ascii.eqb_neq in Hc. rewrite Hc.
  now rewrite (IH Hs).
Qed.

(** The query [url=<encoded text>] holds the text. *)
Lemma query_get_encoded (s : string) :
  Codec.query_get "url" ("url=" +:+ Codec.encodeURIComponent s) = Some s.
Proof.
  unfold Codec.query_get.
  rewrite (split_avoids "&" ("url=" +:+ Codec.encodeURIComponent s)).
  2:{ change ("url=" +:+ Codec.encodeURIComponent s)
        with (String "u" (String "r" (String "l" (String "=" (Codec.encodeURIComponent s))))).
      cbn [avoids]. repeat split; try discriminate. apply encode_avoids. now left. }
  change ("url=" +:+ Codec.encodeURIComponent s)
    with (String "u" (String "r" (String "l" (String "=" (Codec.encodeURIComponent s))))).
  generalize (form_decode_encode s). generalize (Codec.encodeURIComponent s).
  intros enc Henc. cbn. rewrite Henc. reflexivity.
Qed.

(** The decoding side of line 66 on a string built by line 61. *)
Lemma req_query_encoded (s : string) :
  Codec.req_query "url" ("/proxy?url=" +:+ Codec.encodeURIComponent s) = Some s.
Proof.
  unfold Codec.req_query.
  change (Codec.cut "?" ("/proxy?url=" +:+ Codec.encodeURIComponent s))
    with (Some ("/proxy", "url=" +:+ Codec.encodeURIComponent s)).
  apply query_get_encoded.
Qed.

(** C3, as the code has it.  For every string [u] that the URL class accepts,
    [toProxyUrl] answers, and the [url] parameter decoded from its answer is
    the serialisation [new URL(u).toString()], reserved characters of a
    query string included; it is [u] itself when [u] is already in that
    serialised form. *)
Theorem toProxyUrl_round_trip
    (new_URL : string -> option string -> option URLObj) (u : string) (parsed : URLObj) :
  new_URL u None = Some parsed ->
  exists p,
    toProxyUrl new_URL u = Some p
    /\ Codec.req_query "url" p = Some (href parsed)
    /\ (href parsed = u -> Codec.req_query "url" p = Some u).
Proof.
  intros H. unfold toProxyUrl. rewrite H.
  eexists. split; [reflexivity|].
  rewrite req_query_encoded. split; [reflexivity | congruence].
Qed.

Lemma toProxyUrl_round_trip_witness :
  let u := "http://example.com/search?q=a%20b&lang=en#top" in
  exists parsed,
    Fixture.new_URL u None = Some parsed
    /\ exists p,
         toProxyUrl Fixture.new_URL u = Some p
         /\ Codec.req_query "url" p = Some (href parsed)
         /\ (href parsed = u -> Codec.req_query "url" p = Some u).
Proof.
  intros u. eexists. split; [reflexivity|].
  apply (toProxyUrl_round_trip Fixture.new_URL u). reflexivity.
Defined.

(** C3, as the claim states it, fails on an absolute http URL that is not in
    serialised form: the URL class adds the path [/] to [http://example.com],
    and the decoded parameter is the serialisation. *)
Lemma toProxyUrl_round_trip_counterexample :
  let u := "http://example.com" in
  option_map protocol (Fixture.new_URL u None) = Some "http:"
  /\ toProxyUrl Fixture.new_URL u = Some "/proxy?url=http%3A%2F%2Fexample.com%2F"
  /\ Codec.req_query "url" "/proxy?url=http%3A%2F%2Fexample.com%2F"
     = Some "http://example.com/"
  /\ Codec.req_query "url" "/proxy?url=http%3A%2F%2Fexample.com%2F" <> Some u.
Proof. repeat split. discriminate. Qed.

(** ** Header relay *)

Lemma relay_headers_snoc (up : list (string * string)) (kv : string * string)
    (h : gmap string (string * string)) :
  relay_headers (up ++ [kv]) h = relay_header (relay_headers up h) kv.
Proof. unfold relay_headers. now rewrite fold_left_app. Qed.

Lemma last_named_snoc (n : string) (up : list (string * string)) (kv : string * string) :
  last_named n (up ++ [kv]) =
  if String.eqb (JS.toLowerCase (fst kv)) n then Some kv else last_named n up.
Proof. unfold last_named. now rewrite rev_unit. Qed.

Lemma relay_header_cases (h : gmap string (string * string)) (kv : string * string) :
  relay_header h kv =
  if dropped (JS.toLowerCase (fst kv)) then h else setHeader (fst kv) (snd kv) h.
Proof.
  unfold relay_header, dropped.
  destruct (JS.includes hopByHop (JS.toLowerCase (fst kv))); [reflexivity|].
  now destruct (JS.includes framing (JS.toLowerCase (fst kv))).
Qed.

(** What the relay loop leaves under a name: nothing new under a dropped
    name, else the last upstream header of that name, if there is one. *)
Lemma relay_headers_lookup (up : list (string * string))
    (h : gmap string (string * string)) (n : string) :
  relay_headers up h !! n =
  if dropped n then h !! n
  else match last_named n up with
       | Some kv => Some kv
       | None => h !! n
       end.
Proof.
  induction up as [|kv up IH] using rev_ind.
  - cbn. now destruct (dropped n).
  - rewrite relay_headers_snoc, last_named_snoc, relay_header_cases.
    destruct (String.eqb_spec (JS.toLowerCase (fst kv)) n) as [E | E].
    + subst n. destruct (dropped (JS.toLowerCase (fst kv))) eqn:D.
      * exact IH.
      * unfold setHeader. rewrite lookup_insert_eq. now destruct kv.
    + destruct (dropped (JS.toLowerCase (fst kv))).
      * exact IH.
      * unfold setHeader. rewrite lookup_insert_ne by assumption. exact IH.
Qed.

Lemma last_named_In (n : string) (up : list (string * string)) (kv : string * string) :
  last_named n up = Some kv -> In kv up /\ JS.toLowerCase (fst kv) = n.
Proof.
  unfold last_named. intros H. apply find_some in H. destruct H as [Hin E].
  split; [now apply in_rev | now apply String.eqb_eq].
Qed.

Lemma last_named_None (n : string) (up : list (string * string)) :
  last_named n up = None ->
  List.filter (fun kv => String.eqb (JS.toLowerCase (fst kv)) n) up = [].
Proof.
  unfold last_named. intros H.
  destruct (List.filter _ up) as [|kv l] eqn:F; [reflexivity|].
  assert (Hin : In kv (List.filter (fun kv => String.eqb (JS.toLowerCase (fst kv)) n) up)).
  { rewrite F. now left. }
  apply filter_In in Hin. destruct Hin as [Hin E].
  apply in_rev in Hin. pose proof (find_none _ _ H kv Hin) as N. cbn in N. congruence.
Qed.

(** A header that [headers.get] finds is one that the loop has seen. *)
Lemma headers_get_last_named (n : string) (up : list (string * string)) (v : string) :
  headers_get n up = Some v -> exists kv, last_named n up = Some kv.
Proof.
  unfold headers_get. intros H.
  destruct (last_named n up) as [kv|] eqn:L; [now exists kv|].
  apply last_named_None in L. rewrite L in H. discriminate.
Qed.





(** ** The response of [/proxy] *)

Section Respond.

Variable new_URL : string -> option string -> option URLObj.
Variable load_html : string -> node.
Variable parse_fragment : string -> list node.
Variable cfg : Config.
Variable targetUrl : URLObj.
Variable upstream : Upstream.

Let relayed := relay_headers (up_headers upstream) cors_headers.

(** The ways [respond] ends. *)
Lemma respond_cases :
  match respond new_URL load_html parse_fragment cfg targetUrl upstream with
  | Responded r =>
      exists h,
        relay_location new_URL targetUrl (up_headers upstream) relayed = Some h
        /\ status r = up_status upstream
        /\ ((select_path cfg (up_headers upstream) = StreamingPath
             /\ headers r = h /\ body r = Piped (up_body upstream))
            \/ (select_path cfg (up_headers upstream) = RewritePath
                /\ headers r = setHeader "content-type" "text/html; charset=utf-8" h
                /\ exists doc,
                     rewrite_html new_URL parse_fragment targetUrl (load_html (up_body upstream)) = Some doc
                     /\ body r = SentDocument doc))
  | Threw =>
      relay_location new_URL targetUrl (up_headers upstream) relayed = None
      \/ (select_path cfg (up_headers upstream) = RewritePath
          /\ rewrite_html new_URL parse_fragment targetUrl (load_html (up_body upstream)) = None)
  end.
Proof.
  unfold respond. fold relayed.
  destruct (relay_location new_URL targetUrl (up_headers upstream) relayed) as [h|];
    [|now left].
  destruct (select_path cfg (up_headers upstream)).
  - exists h. split; [reflexivity|]. split; [reflexivity|]. left. now repeat split.
  - destruct (rewrite_html new_URL parse_fragment targetUrl (load_html (up_body upstream))) as [doc|].
    + exists h. split; [reflexivity|]. split; [reflexivity|]. right.
      split; [reflexivity|]. split; [reflexivity|]. now exists doc.
    + now right.
Qed.

(** The header [location] of the answer is the one the redirect block left. *)
Lemma respond_location (r : Response) :
  respond new_URL load_html parse_fragment cfg targetUrl upstream = Responded r ->
  exists h,
    relay_location new_URL targetUrl (up_headers upstream) relayed = Some h
    /\ headers r !! "location" = h !! "location".
Proof.
  intros H. pose proof respond_cases as C. rewrite H in C.
  destruct C as (h & Hh & _ & [(_ & -> & _) | (_ & -> & _)]); exists h; (split; [exact Hh|]).
  - reflexivity.
  - unfold setHeader. now rewrite lookup_insert_ne.
Qed.

(** An upstream [location] header is relayed by the loop. *)
Lemma relayed_location (loc : string) :
  headers_get "location" (up_headers upstream) = Some loc ->
  exists k v, In (k, v) (up_headers upstream)
              /\ JS.toLowerCase k = "location"
              /\ relayed !! "location" = Some (k, v).
Proof.
  intros H. apply headers_get_last_named in H. destruct H as [[k v] L].
  exists k, v. destruct (last_named_In _ _ _ L) as [Hin E].
  split; [exact Hin|]. split; [exact E|].
  unfold relayed. rewrite relay_headers_lookup.
  change (dropped "location") with false. cbv iota. now rewrite L.
Qed.

End Respond.

Lemma truthy_Some (v : option string) (s : string) :
  truthy v = Some s -> v = Some s /\ s <> EmptyString.
Proof.
  destruct v as [x|]; [|discriminate]. cbn. destruct x; [discriminate|].
  intros H. injection H as <-. split; [reflexivity | discriminate].
Qed.

(** C4, as the code has it.  When the upstream response has a non-empty
    [Location]: if it resolves against the target URL, the answer carries
    [Location] with the ProxyURL of the resolved URL; if it does not resolve,
    the answer carries the upstream [location] header as the relay loop
    copied it, name and value unchanged.  The handler answers unless
    [toProxyUrl] throws, for the resolved URL or inside the HTML rewrite. *)
Theorem location_relay
    (new_URL : string -> option string -> option URLObj) (load_html : string -> node)
    (parse_fragment : string -> list node)
    (cfg : Config) (targetUrl : URLObj) (upstream : Upstream) (loc : string) :
  truthy (headers_get "location" (up_headers upstream)) = Some loc ->
  match respond new_URL load_html parse_fragment cfg targetUrl upstream with
  | Responded r =>
      match truthy (absoluteUrl new_URL targetUrl loc) with
      | Some abs =>
          exists p, toProxyUrl new_URL abs = Some p
                    /\ headers r !! "location" = Some ("Location", p)
      | None =>
          exists k v, In (k, v) (up_headers upstream)
                      /\ JS.toLowerCase k = "location"
                      /\ headers r !! "location" = Some (k, v)
      end
  | Threw =>
      (exists abs, truthy (absoluteUrl new_URL targetUrl loc) = Some abs
                   /\ toProxyUrl new_URL abs = None)
      \/ (select_path cfg (up_headers upstream) = RewritePath
          /\ rewrite_html new_URL parse_fragment targetUrl (load_html (up_body upstream)) = None)
  end.
Proof.
  intros Hloc.
  pose proof (respond_cases new_URL load_html parse_fragment cfg targetUrl upstream) as C.
  destruct (respond new_URL load_html parse_fragment cfg targetUrl upstream) as [r|] eqn:R.
  - destruct (respond_location _ _ _ _ _ _ _ R) as (h & Hh & Hr).
    unfold relay_location in Hh. rewrite Hloc in Hh.
    destruct (truthy (absoluteUrl new_URL targetUrl loc)) as [abs|].
    + destruct (toProxyUrl new_URL abs) as [p|]; [|discriminate].
      injection Hh as <-. exists p. split; [reflexivity|].
      rewrite Hr. unfold setHeader. apply lookup_insert_eq.
    + injection Hh as <-. apply truthy_Some in Hloc. destruct Hloc as [Hloc _].
      destruct (relayed_location upstream loc Hloc) as (k & v & Hin & Hk & Hl).
      exists k, v. split; [exact Hin|]. split; [exact Hk|]. now rewrite Hr.
  - destruct C as [C | C]; [|now right]. left.
    unfold relay_location in C. rewrite Hloc in C.
    destruct (truthy (absoluteUrl new_URL targetUrl loc)) as [abs|]; [|discriminate].
    exists abs. split; [reflexivity|].
    now destruct (toProxyUrl new_URL abs).
Qed.

(** A redirect to [/new] from [http://example.com/index.html]. *)
Lemma location_relay_witness :
  let upstream := {| up_status := 301; up_headers := [("location", "/new")]; up_body := "" |} in
  Fixture.new_URL "http://example.com/index.html" None = Some Fixture.example_target
  /\ truthy (headers_get "location" (up_headers upstream)) = Some "/new"
  /\ exists r,
       respond Fixture.new_URL Fixture.load_html Fixture.parse_fragment Fixture.default_config
         Fixture.example_target upstream = Responded r
       /\ status r = 301%Z
       /\ headers r !! "location"
          = Some ("Location", "/proxy?url=http%3A%2F%2Fexample.com%2Fnew").
Proof.
  intros upstream. split; [reflexivity|]. split; [reflexivity|].
  pose proof (location_relay Fixture.new_URL Fixture.load_html Fixture.parse_fragment Fixture.default_config
                Fixture.example_target upstream "/new" eq_refl) as L.
  eexists. split; [reflexivity|]. split; [reflexivity|].
  destruct L as (p & Hp & Hl). injection Hp as <-. exact Hl.
Defined.

(** C4, as the claim states it, fails on a [Location] that does not resolve:
    the host of [http://bad host/] has a space, the URL class throws, and the
    answer of [/proxy] still carries the header, as the relay loop copied it. *)
Lemma location_relay_counterexample :
  let upstream := {| up_status := 302; up_headers := [("location", "http://bad host/")];
                     up_body := "" |} in
  let req := Fixture.request "GET" "/proxy?url=http%3A%2F%2Fexample.com%2Findex.html" [] in
  Fixture.new_URL "http://bad host/" (Some "http://example.com/index.html") = None
  /\ exists r,
       snd (app_proxy Fixture.new_URL (Fixture.always upstream) Fixture.load_html Fixture.parse_fragment
              Fixture.default_config req) = Responded r
       /\ status r = 302%Z
       /\ headers r !! "location" = Some ("location", "http://bad host/").
Proof.
  intros upstream req. split; [reflexivity|].
  eexists. split; [reflexivity|]. split; [reflexivity|]. reflexivity.
Qed.



(** Of headers with distinct names, each is the last of its name. *)
Lemma last_named_unique (up : list (string * string)) (k v : string) :
  NoDup (List.map (fun kv => JS.toLowerCase (fst kv)) up) ->
  In (k, v) up -> last_named (JS.toLowerCase k) up = Some (k, v).
Proof.
  induction up as [|kv up IH] using rev_ind; [intros _ []|].
  rewrite map_app. cbn [List.map]. intros ND Hin.
  rewrite last_named_snoc.
  apply NoDup_app in ND. destruct ND as (ND & Hdis & _).
  apply in_app_or in Hin. destruct Hin as [Hin | [-> | []]].
  - destruct (String.eqb_spec (JS.toLowerCase (fst kv)) (JS.toLowerCase k)) as [E | _].
    + exfalso. apply (Hdis (JS.toLowerCase k)).
      * apply list_elem_of_In. apply in_map_iff. now exists (k, v).
      * rewrite <- E. apply list_elem_of_In. now left.
    + now apply IH.
  - cbn. now rewrite String.eqb_refl.
Qed.

(** The redirect block leaves the headers alone or sets [Location]. *)
Lemma relay_location_cases
    (new_URL : string -> option string -> option URLObj) (targetUrl : URLObj)
    (up : list (string * string)) (h0 h : gmap string (string * string)) :
  relay_location new_URL targetUrl up h0 = Some h ->
  h = h0 \/ exists p, h = setHeader "Location" p h0.
Proof.
  unfold relay_location.
  destruct (truthy (headers_get "location" up)) as [loc|]; [|intros [= <-]; now left].
  destruct (truthy (absoluteUrl new_URL targetUrl loc)) as [abs|]; [|intros [= <-]; now left].
  destruct (toProxyUrl new_URL abs) as [p|]; [|discriminate].
  intros [= <-]. right. now exists p.
Qed.




(** ** Response classifier *)

(** [headers.get] when one header has the name. *)
Lemma headers_get_single (n k v : string) (before after : list (string * string)) :
  JS.toLowerCase k = n ->
  (forall kv, In kv (before ++ after) -> JS.toLowerCase (fst kv) <> n) ->
  headers_get n (before ++ (k, v) :: after) = Some v.
Proof.
  intros Hk Hn. unfold headers_get.
  assert (F : forall l : list (string * string),
                (forall kv, In kv l -> JS.toLowerCase (fst kv) <> n) ->
                        List.filter (fun kv => String.eqb (JS.toLowerCase (fst kv)) n) l = []).
  { induction l as [|x l IH]; [reflexivity|]. intros H. cbn [List.filter].
    destruct (String.eqb_spec (JS.toLowerCase (fst x)) n) as [E | _].
    - exfalso. apply (H x); [now left | exact E].
    - apply IH. intros kv Hin. apply H. now right. }
  rewrite List.filter_app. cbn [List.filter fst]. rewrite Hk, String.eqb_refl.
  rewrite !F; [reflexivity | |]; intros kv Hin; apply Hn; apply in_or_app; auto.
Qed.

(** [headers.get] when no header has the name. *)
Lemma headers_get_absent (n : string) (up : list (string * string)) :
  (forall k v, In (k, v) up -> JS.toLowerCase k <> n) ->
  headers_get n up = None.
Proof.
  intros H. unfold headers_get.
  destruct (List.filter _ up) as [|[k v] l] eqn:F; [reflexivity|].
  assert (Hin : In (k, v) (List.filter (fun kv => String.eqb (JS.toLowerCase (fst kv)) n) up)).
  { rewrite F. now left. }
  apply filter_In in Hin. destruct Hin as [Hin E]. cbn in E.
  apply String.eqb_eq in E. now destruct (H k v Hin).
Qed.

Lemma select_path_rewrite (cfg : Config) (up : list (string * string)) :
  select_path cfg up = RewritePath
  <-> (exists rest, headers_get "content-type" up = Some ("text/html" +:+ rest))
      /\ ENABLE_REWRITE cfg = true.
Proof.
  unfold select_path, contentType.
  assert (S : JS.startsWith
                match truthy (headers_get "content-type" up) with
                | Some ct => ct
                | None => EmptyString
                end "text/html" = true
              <-> exists rest, headers_get "content-type" up = Some ("text/html" +:+ rest)).
  { rewrite startsWith_iff. destruct (headers_get "content-type" up) as [[|c ct]|]; cbn.
    - split; intros [rest H]; discriminate.
    - split; intros [rest H]; exists rest; congruence.
    - split; intros [rest H]; discriminate. }
  rewrite <- S.
  destruct (JS.startsWith _ "text/html"), (ENABLE_REWRITE cfg); cbn;
    split; try discriminate; try tauto; intros [? ?]; discriminate.
Qed.

(** Rewriting is off exactly when the variable is the text [false]. *)
Lemma ENABLE_REWRITE_false (e : Env) :
  ENABLE_REWRITE (load_config e) = false <-> env_ENABLE_REWRITE e = Some "false".
Proof.
  cbn. destruct (env_ENABLE_REWRITE e) as [s|]; [|split; discriminate].
  rewrite negb_false_iff, String.eqb_eq. split; congruence.
Qed.

(** C9. The Rewrite Path is taken exactly when the upstream content type,
    that is, what [upstream.headers.get('content-type')] gives, starts with
    [text/html] and rewriting is enabled, and the Streaming Path in every
    other case: without a [content-type] header the Streaming Path is taken,
    and with one such header the value of that header decides.  An answer on
    the Streaming Path carries the upstream body as it is; an answer on the
    Rewrite Path carries the rewritten document.  With
    [ENABLE_REWRITE=false] the Streaming Path is taken whatever the content
    type, so an HTML body goes through as it is. *)
Theorem path_selection
    (new_URL : string -> option string -> option URLObj) (load_html : string -> node)
    (parse_fragment : string -> list node)
    (cfg : Config) (targetUrl : URLObj) (upstream : Upstream) :
  let up := up_headers upstream in
  let html_and_enabled :=
    (exists rest, headers_get "content-type" up = Some ("text/html" +:+ rest))
    /\ ENABLE_REWRITE cfg = true in
  (select_path cfg up = RewritePath <-> html_and_enabled)
  /\ (select_path cfg up = StreamingPath <-> ~ html_and_enabled)
  /\ ((forall k v, In (k, v) up -> JS.toLowerCase k <> "content-type") ->
      select_path cfg up = StreamingPath)
  /\ (forall before k v after,
        up = before ++ (k, v) :: after ->
        JS.toLowerCase k = "content-type" ->
        (forall kv, In kv (before ++ after) -> JS.toLowerCase (fst kv) <> "content-type") ->
        (select_path cfg up = RewritePath
         <-> JS.startsWith v "text/html" = true /\ ENABLE_REWRITE cfg = true))
  /\ match respond new_URL load_html parse_fragment cfg targetUrl upstream with
     | Responded r =>
         (select_path cfg up = StreamingPath /\ body r = Piped (up_body upstream))
         \/ (select_path cfg up = RewritePath
             /\ exists doc,
                  rewrite_html new_URL parse_fragment targetUrl
                    (load_html (up_body upstream)) = Some doc
                  /\ body r = SentDocument doc)
     | Threw =>
         relay_location new_URL targetUrl up (relay_headers up cors_headers) = None
         \/ (select_path cfg up = RewritePath
             /\ rewrite_html new_URL parse_fragment targetUrl
                  (load_html (up_body upstream)) = None)
     end
  /\ (forall e : Env,
        env_ENABLE_REWRITE e = Some "false" ->
        select_path (load_config e) up = StreamingPath
        /\ forall r,
             respond new_URL load_html parse_fragment (load_config e) targetUrl upstream
             = Responded r ->
             body r = Piped (up_body upstream)).
Proof.
  intros up html_and_enabled.
  pose proof (select_path_rewrite cfg up) as RW. fold html_and_enabled in RW.
  split; [exact RW|]. split; [|split; [|split; [|split]]].
  - rewrite <- RW. destruct (select_path cfg up); split; congruence.
  - intros Habs. destruct (select_path cfg up) eqn:S; [reflexivity|].
    destruct (proj1 RW eq_refl) as [[rest H] _].
    rewrite (headers_get_absent _ _ Habs) in H. discriminate.
  - intros before k v after Hup Hk Hn. rewrite RW. unfold html_and_enabled.
    rewrite Hup, (headers_get_single "content-type" k v before after Hk Hn).
    rewrite startsWith_iff. split; intros [[rest H] E]; (split; [|exact E]);
      exists rest; congruence.
  - pose proof (respond_cases new_URL load_html parse_fragment cfg targetUrl upstream) as C.
    destruct (respond new_URL load_html parse_fragment cfg targetUrl upstream) as [r|];
      [|exact C].
    destruct C as (h & _ & _ & [(P & _ & B) | (P & _ & doc & D & B)]).
    + left. now split.
    + right. split; [exact P|]. now exists doc.
  - intros e He. apply ENABLE_REWRITE_false in He.
    assert (S : select_path (load_config e) up = StreamingPath).
    { unfold select_path. rewrite He. now rewrite orb_true_r. }
    split; [exact S|]. intros r R.
    pose proof (respond_cases new_URL load_html parse_fragment (load_config e)
                  targetUrl upstream) as C.
    rewrite R in C. fold up in C.
    destruct C as (h & _ & _ & [(_ & _ & B) | (P & _)]); [exact B | congruence].
Qed.

(** An HTML page with rewriting switched off, and the same page with it on. *)
Lemma path_selection_witness :
  let upstream := {| up_status := 200;
                     up_headers := [("etag", "x"); ("Content-Type", "text/html; charset=utf-8")];
                     up_body := "<a href='/about'>About</a>" |} in
  let off := {| env_MAX_BODY_MB := Int 64; env_ALLOWLIST := None; env_BLOCKLIST := None;
                env_ENABLE_REWRITE := Some "false" |} in
  (exists r,
     respond Fixture.new_URL Fixture.load_html Fixture.parse_fragment (load_config off)
       Fixture.example_target upstream = Responded r
     /\ body r = Piped "<a href='/about'>About</a>")
  /\ select_path Fixture.default_config (up_headers upstream) = RewritePath.
Proof.
  intros upstream off.
  destruct (path_selection Fixture.new_URL Fixture.load_html Fixture.parse_fragment
              Fixture.default_config Fixture.example_target upstream)
    as (_ & _ & _ & One & _ & OFF).
  split.
  - eexists. split; [reflexivity|].
    destruct (OFF off eq_refl) as [_ B]. apply B. reflexivity.
  - apply (One [("etag", "x")] "Content-Type" "text/html; charset=utf-8" []).
    + reflexivity.
    + reflexivity.
    + intros kv [<- | []]. discriminate.
    + split; reflexivity.
Defined.

(** ** Body guard *)

(** The loop stops at the chunk that takes the size over a limit that the
    size read so far respects. *)
Lemma guard_body_exceeds (m size : Z) (chunks incoming : list string) :
  (size <= m * 1024 * 1024)%Z ->
  (m * 1024 * 1024 < size + body_size incoming)%Z ->
  guard_body (Int m) size chunks incoming = None.
Proof.
  revert size chunks. induction incoming as [|chunk rest IH]; intros size chunks Hs Hx.
  - cbn in Hx. lia.
  - cbn [guard_body exceeds]. cbn [body_size fold_right] in Hx. fold (body_size rest) in Hx.
    destruct (Z.ltb_spec (m * 1024 * 1024) (size + Z.of_nat (String.length chunk))) as [L | L].
    + reflexivity.
    + apply IH; lia.
Qed.

(** Below the limit the whole body is read. *)
Lemma guard_body_within (m size : Z) (chunks incoming : list string) :
  (size + body_size incoming <= m * 1024 * 1024)%Z ->
  guard_body (Int m) size chunks incoming = Some (chunks ++ incoming).
Proof.
  revert size chunks. induction incoming as [|chunk rest IH]; intros size chunks Hx.
  - cbn. now rewrite app_nil_r.
  - cbn [guard_body exceeds]. cbn [body_size fold_right] in Hx. fold (body_size rest) in Hx.
    assert (0 <= body_size rest)%Z.
    { clear. induction rest as [|c r IHr]; cbn; [lia|]. fold (body_size r). lia. }
    destruct (Z.ltb_spec (m * 1024 * 1024) (size + Z.of_nat (String.length chunk))) as [L | L].
    + lia.
    + rewrite IH by lia. now rewrite <- app_assoc.
Qed.

Lemma read_body_too_large
    (cfg : Config) (req : Request) (m : Z) :
  MAX_BODY_MB cfg = Int m -> (0 <= m)%Z ->
  req_method req <> "GET" -> req_method req <> "HEAD" ->
  (m * 1024 * 1024 < body_size (req_body req))%Z ->
  read_body cfg req = None.
Proof.
  intros Hm Hpos Hg Hh Hx. unfold read_body.
  apply String.eqb_neq in Hg, Hh. rewrite Hg, Hh. cbn [negb andb].
  rewrite Hm, guard_body_exceeds; [reflexivity | lia | lia].
Qed.

(** C7, as the code has it.  Let the limit [MAX_BODY_MB] be a non-negative
    number and let a request for [/proxy], with a method other than GET and
    HEAD, have a body over that limit.  Then no upstream fetch is issued; and
    when the request reaches the body guard, that is, its method is not
    OPTIONS and its [url] parameter is a URL of scheme http or https whose
    host passes the policy, the answer is 413. *)
Theorem body_guard
    (new_URL : string -> option string -> option URLObj)
    (fetch : FetchRequest -> option Upstream) (load_html : string -> node)
    (parse_fragment : string -> list node)
    (cfg : Config) (req : Request) (m : Z) :
  MAX_BODY_MB cfg = Int m -> (0 <= m)%Z ->
  req_method req <> "GET" -> req_method req <> "HEAD" ->
  (m * 1024 * 1024 < body_size (req_body req))%Z ->
  (forall call, ~ In (Fetch call) (fst (app_proxy new_URL fetch load_html parse_fragment cfg req)))
  /\ (req_method req <> "OPTIONS" ->
      forall target targetUrl,
        truthy (Codec.req_query "url" (req_url req)) = Some target ->
        new_URL target None = Some targetUrl ->
        JS.includes ["http:"; "https:"] (protocol targetUrl) = true ->
        isAllowed cfg targetUrl = true ->
        app_proxy new_URL fetch load_html parse_fragment cfg req
        = ([PolicyCheck (hostname targetUrl) true], error_response 413 "Payload too large")).
Proof.
  intros Hm Hpos Hg Hh Hx.
  pose proof (read_body_too_large cfg req m Hm Hpos Hg Hh Hx) as RB.
  split.
  - intros call. unfold app_proxy, proxy_handler.
    destruct (String.eqb (req_method req) "OPTIONS"); [intros []|].
    destruct (truthy (Codec.req_query "url" (req_url req))) as [target|]; [|intros []].
    destruct (new_URL target None) as [t|]; [|intros []].
    destruct (negb (JS.includes ["http:"; "https:"] (protocol t))); [intros []|].
    rewrite RB.
    destruct (negb (isAllowed cfg t)); cbn; intros [H | []]; discriminate.
  - intros Ho target t Ht Hu Hs Ha. unfold app_proxy, proxy_handler.
    apply String.eqb_neq in Ho. rewrite Ho, Ht, Hu, Hs, Ha, RB. reflexivity.
Qed.

(** A one-byte POST body under [MAX_BODY_MB=0]. *)
Lemma body_guard_witness :
  let cfg := load_config {| env_MAX_BODY_MB := Int 0; env_ALLOWLIST := None;
                            env_BLOCKLIST := None; env_ENABLE_REWRITE := None |} in
  let req := Fixture.request "POST" "/proxy?url=http%3A%2F%2Fexample.com%2Findex.html" ["x"] in
  let upstream := {| up_status := 200; up_headers := []; up_body := "" |} in
  (0 * 1024 * 1024 < body_size (req_body req))%Z
  /\ app_proxy Fixture.new_URL (Fixture.always upstream) Fixture.load_html Fixture.parse_fragment cfg req
     = ([PolicyCheck "example.com" true], error_response 413 "Payload too large").
Proof.
  intros cfg req upstream. split; [reflexivity|].
  refine (proj2 (body_guard Fixture.new_URL (Fixture.always upstream) Fixture.load_html Fixture.parse_fragment
                   cfg req 0 eq_refl _ _ _ _) _ "http://example.com/index.html"
                Fixture.example_target eq_refl eq_refl eq_refl eq_refl);
    (discriminate || reflexivity || lia).
Defined.

(** C7, as the claim states it, fails for the method OPTIONS, which the CORS
    middleware answers with 200 before the handler runs, and for a request
    that the handler turns down before it reads the body, here one without
    [url]. *)
Lemma body_guard_counterexample :
  let cfg := load_config {| env_MAX_BODY_MB := Int 0; env_ALLOWLIST := None;
                            env_BLOCKLIST := None; env_ENABLE_REWRITE := None |} in
  let upstream := {| up_status := 200; up_headers := []; up_body := "" |} in
  let run := app_proxy Fixture.new_URL (Fixture.always upstream) Fixture.load_html Fixture.parse_fragment cfg in
  let options := Fixture.request "OPTIONS" "/proxy?url=http%3A%2F%2Fexample.com%2Findex.html" ["x"] in
  let post := Fixture.request "POST" "/proxy" ["x"] in
  (0 * 1024 * 1024 < body_size (req_body options))%Z
  /\ run options = ([], Responded {| status := 200; headers := cors_headers; body := Ended |})
  /\ (0 * 1024 * 1024 < body_size (req_body post))%Z
  /\ run post = ([], error_response 400 "Missing ?url=").
Proof. repeat split. Qed.

(** ** Where the policy is consulted *)

Section Gates.

Variable new_URL : string -> option string -> option URLObj.
Variable fetch : FetchRequest -> option Upstream.
Variable load_html : string -> node.
Variable parse_fragment : string -> list node.
Variable cfg : Config.


(** The upgrade handler tunnels exactly when the request is for [/ws], its
    [url] parameter is accepted by the URL class, and the policy accepts
    the host. *)
Lemma upgrade_handler_tunnel (req : Request) (tgt : string) :
  snd (upgrade_handler new_URL cfg req) = Tunnel tgt
  <-> exists url target targetUrl,
        new_URL (req_url req) (Some "http://localhost") = Some url
        /\ pathname url = "/ws"
        /\ truthy (Codec.searchParams_get "url" url) = Some target
        /\ new_URL target None = Some targetUrl
        /\ isAllowed cfg targetUrl = true
        /\ tgt = origin targetUrl.
Proof.
  unfold upgrade_handler. split.
  - destruct (new_URL (req_url req) (Some "http://localhost")) as [url|] eqn:R;
      [|discriminate].
    destruct (String.eqb_spec (pathname url) "/ws") as [E | E]; [|discriminate].
    cbn [negb].
    destruct (truthy (Codec.searchParams_get "url" url)) as [target|] eqn:Q;
      [|discriminate].
    destruct (new_URL target None) as [t|] eqn:U; [|discriminate].
    destruct (isAllowed cfg t) eqn:A; [|discriminate].
    cbn. intros [= <-]. exists url, target, t.
    split; [reflexivity|]. split; [exact E|]. split; [exact Q|].
    split; [exact U|]. split; [exact A | reflexivity].
  - intros (url & target & t & -> & -> & -> & -> & A & ->). cbn.
    now rewrite A.
Qed.


(** A [Location] that resolves is rewritten, whatever its host. *)
Lemma respond_rewrites_location (targetUrl : URLObj) (upstream : Upstream)
    (loc abs p : string) (r : Response) :
  truthy (headers_get "location" (up_headers upstream)) = Some loc ->
  truthy (absoluteUrl new_URL targetUrl loc) = Some abs ->
  toProxyUrl new_URL abs = Some p ->
  respond new_URL load_html parse_fragment cfg targetUrl upstream = Responded r ->
  headers r !! "location" = Some ("Location", p).
Proof.
  intros Hl Ha Hp R.
  destruct (respond_location _ _ _ _ _ _ _ R) as (h & Hh & ->).
  unfold relay_location in Hh. rewrite Hl, Ha, Hp in Hh. injection Hh as <-.
  unfold setHeader. apply lookup_insert_eq.
Qed.

End Gates.




(** C10. The upgrade handler tunnels to the origin of the [url] parameter
    exactly when the request is for [/ws], the parameter is accepted by the
    URL class and the policy accepts its host: the scheme plays no part, so a
    URL of any scheme with an allowed host is tunnelled to.  The [/proxy]
    handler answers 400 to a URL whose scheme is neither http nor https. *)
Theorem upgrade_ignores_scheme
    (new_URL : string -> option string -> option URLObj)
    (fetch : FetchRequest -> option Upstream) (load_html : string -> node)
    (parse_fragment : string -> list node)
    (cfg : Config) (req : Request) :
  (forall tgt,
     snd (upgrade_handler new_URL cfg req) = Tunnel tgt
     <-> exists url target targetUrl,
           new_URL (req_url req) (Some "http://localhost") = Some url
           /\ pathname url = "/ws"
           /\ truthy (Codec.searchParams_get "url" url) = Some target
           /\ new_URL target None = Some targetUrl
           /\ isAllowed cfg targetUrl = true
           /\ tgt = origin targetUrl)
  /\ (forall target targetUrl,
        truthy (Codec.req_query "url" (req_url req)) = Some target ->
        new_URL target None = Some targetUrl ->
        JS.includes ["http:"; "https:"] (protocol targetUrl) = false ->
        proxy_handler new_URL fetch load_html parse_fragment cfg req
        = ([], error_response 400 "Only http/https are supported")).
Proof.
  split.
  - intros tgt. apply upgrade_handler_tunnel.
  - intros target t Q U P. unfold proxy_handler. now rewrite Q, U, P.
Qed.

(** An ftp URL: tunnelled to by the bridge, turned down by [/proxy]. *)
Lemma upgrade_ignores_scheme_witness :
  let ws := Fixture.request "GET" "/ws?url=ftp%3A%2F%2Fexample.com%2Fpub" [] in
  let get := Fixture.request "GET" "/proxy?url=ftp%3A%2F%2Fexample.com%2Fpub" [] in
  let upstream := {| up_status := 200; up_headers := []; up_body := "" |} in
  snd (upgrade_handler Fixture.new_URL Fixture.default_config ws) = Tunnel "ftp://example.com"
  /\ proxy_handler Fixture.new_URL (Fixture.always upstream) Fixture.load_html Fixture.parse_fragment
       Fixture.default_config get
     = ([], error_response 400 "Only http/https are supported").
Proof.
  intros ws get upstream.
  pose (ftp := {| href := "ftp://example.com/pub"; protocol := "ftp:";
                  hostname := "example.com"; origin := "ftp://example.com";
                  pathname := "/pub"; search := "" |}).
  pose (url := {| href := "http://localhost/ws?url=ftp%3A%2F%2Fexample.com%2Fpub";
                  protocol := "http:"; hostname := "localhost";
                  origin := "http://localhost"; pathname := "/ws";
                  search := "?url=ftp%3A%2F%2Fexample.com%2Fpub" |}).
  split.
  - apply (proj1 (upgrade_ignores_scheme Fixture.new_URL (Fixture.always upstream)
             Fixture.load_html Fixture.parse_fragment Fixture.default_config ws) "ftp://example.com").
    exists url, "ftp://example.com/pub", ftp.
    repeat split; vm_compute; reflexivity.
  - apply (proj2 (upgrade_ignores_scheme Fixture.new_URL (Fixture.always upstream)
              Fixture.load_html Fixture.parse_fragment Fixture.default_config get) "ftp://example.com/pub" ftp);
      vm_compute; reflexivity.
Defined.

(** ** HTML rewrite engine *)

(** Induction on a document tree, with the property known of the children. *)
Lemma node_induction (P : node -> Prop) :
  (forall d, P (Text d)) ->
  (forall t a cs, Forall P cs -> P (Element t a cs)) ->
  forall n, P n.
Proof.
  intros HT HE. fix IH 1. intros [t a cs | d]; [|apply HT].
  apply HE. induction cs as [|c cs IHcs]; constructor; [apply IH | exact IHcs].
Qed.

Lemma each_element_Element (f : string -> attribs -> option attribs)
    (t : string) (a : attribs) (cs : list node) :
  each_element f (Element t a cs) =
  match f t a with
  | None => None
  | Some a' =>
      match each_children f cs with
      | None => None
      | Some cs' => Some (Element t a' cs')
      end
  end.
Proof.
  cbn [each_element]. destruct (f t a) as [a'|]; [|reflexivity].
  assert (E : forall l,
             (fix each_child (l : list node) : option (list node) :=
                match l with
                | [] => Some []
                | c :: l' =>
                    match each_element f c with
                    | None => None
                    | Some c' =>
                        match each_child l' with
                        | None => None
                        | Some l'' => Some (c' :: l'')
                        end
                    end
                end) l = each_children f l).
  { induction l as [|c l IHl]; [reflexivity|]. cbn [each_children].
    destruct (each_element f c); [|reflexivity]. now rewrite IHl. }
  now rewrite E.
Qed.

(** A loop changes no tag, adds and removes no element, and gives every
    element the attributes its callback answers. *)
Lemma each_element_elements (f : string -> attribs -> option attribs) (n n' : node) :
  each_element f n = Some n' ->
  Forall2 (fun e e' => fst e = fst e' /\ f (fst e) (snd e) = Some (snd e'))
    (elements n) (elements n').
Proof.
  revert n'. induction n as [d | t a cs IH] using node_induction; intros n' H.
  - injection H as <-. constructor.
  - rewrite each_element_Element in H.
    destruct (f t a) as [a'|] eqn:F; [|discriminate].
    destruct (each_children f cs) as [cs'|] eqn:C; [|discriminate].
    injection H as <-. cbn [elements]. constructor; [now split|].
    clear F. revert cs' C. induction IH as [|c cs Hc _ IHcs]; intros cs' C.
    + injection C as <-. constructor.
    + cbn [each_children] in C.
      destruct (each_element f c) as [c'|] eqn:Ec; [|discriminate].
      destruct (each_children f cs) as [cs''|]; [|discriminate].
      injection C as <-. cbn [flat_map].
      apply Forall2_app; [now apply Hc | now apply IHcs].
Qed.

Lemma attr_get_set_other (name other value : string) (a : attribs) :
  other <> name -> attr_get other (attr_set name value a) = attr_get other a.
Proof.
  intros N. induction a as [|[k v] a IH]; cbn.
  - destruct (String.eqb_spec name other); [congruence | reflexivity].
  - destruct (String.eqb_spec k name) as [-> | Hk]; cbn.
    + destruct (String.eqb_spec name other); [congruence | reflexivity].
    + destruct (String.eqb_spec k other); [reflexivity | exact IH].
Qed.

Lemma attr_get_set_same (name value : string) (a : attribs) :
  attr_get name (attr_set name value a) = Some value.
Proof.
  induction a as [|[k v] a IH]; cbn.
  - now rewrite String.eqb_refl.
  - destruct (String.eqb_spec k name) as [-> | Hk]; cbn.
    + now rewrite String.eqb_refl.
    + destruct (String.eqb_spec k name); [contradiction | exact IH].
Qed.

Section Rewrite.

Variable new_URL : string -> option string -> option URLObj.
Variable targetUrl : URLObj.

(** A value that does not resolve is not rewritten. *)
Lemma rewrite_value_unresolved (v : string) :
  absoluteUrl new_URL targetUrl v = None ->
  rewrite_value new_URL targetUrl v = Some None.
Proof. intros H. unfold rewrite_value. now rewrite H. Qed.

Lemma rewrite_attr_keeps (name0 v0 : string) (a a' : attribs) :
  attr_get name0 a = Some v0 ->
  rewrite_attr new_URL targetUrl name0 v0 a = Some a' ->
  forall name v,
    attr_get name a = Some v ->
    absoluteUrl new_URL targetUrl v = None ->
    attr_get name a' = Some v.
Proof.
  intros G R name v Hv Hu. unfold rewrite_attr in R.
  destruct (rewrite_value new_URL targetUrl v0) as [[p|]|] eqn:RV; [| |discriminate].
  - injection R as <-.
    destruct (String.eqb_spec name name0) as [-> | N].
    + assert (v0 = v) as -> by congruence.
      rewrite rewrite_value_unresolved in RV by assumption. discriminate.
    + now rewrite attr_get_set_other.
  - now injection R as <-.
Qed.

Lemma on_selected_keeps (sel name0 t : string) (a a' : attribs) :
  on_selected new_URL targetUrl sel name0 t a = Some a' ->
  keeps_unresolved new_URL targetUrl (t, a) (t, a').
Proof.
  unfold on_selected. intros H. split; [reflexivity|]. cbn [snd].
  destruct (String.eqb t sel); [|now injection H as <-].
  destruct (attr_get name0 a) as [v0|] eqn:G; [|now injection H as <-].
  now apply (rewrite_attr_keeps name0 v0).
Qed.

Lemma on_resource_keeps (name0 t : string) (a a' : attribs) :
  on_resource new_URL targetUrl name0 t a = Some a' ->
  keeps_unresolved new_URL targetUrl (t, a) (t, a').
Proof.
  unfold on_resource. intros H. split; [reflexivity|]. cbn [snd].
  destruct (JS.includes resource_tags t); [|now injection H as <-].
  destruct (truthy (attr_get name0 a)) as [v0|] eqn:G; [|now injection H as <-].
  apply truthy_Some in G. destruct G as [G _].
  now apply (rewrite_attr_keeps name0 v0).
Qed.

Lemma keeps_unresolved_trans (e1 e2 e3 : string * attribs) :
  keeps_unresolved new_URL targetUrl e1 e2 ->
  keeps_unresolved new_URL targetUrl e2 e3 ->
  keeps_unresolved new_URL targetUrl e1 e3.
Proof.
  intros [T1 K1] [T2 K2]. split; [congruence|].
  intros name v Hv Hu. apply K2; [|exact Hu]. now apply K1.
Qed.

(** One loop keeps what does not resolve. *)
Lemma each_element_keeps (f : string -> attribs -> option attribs) (d d' : node) :
  (forall t a a', f t a = Some a' -> keeps_unresolved new_URL targetUrl (t, a) (t, a')) ->
  each_element f d = Some d' ->
  Forall2 (keeps_unresolved new_URL targetUrl) (elements d) (elements d').
Proof.
  intros Hf H. apply each_element_elements in H.
  induction H as [|[t a] [t' a'] l l' [Ht Ha] _ IH]; constructor; [|exact IH].
  cbn in Ht, Ha. subst t'. now apply Hf.
Qed.

Lemma Forall2_keeps_trans (l1 l2 l3 : list (string * attribs)) :
  Forall2 (keeps_unresolved new_URL targetUrl) l1 l2 ->
  Forall2 (keeps_unresolved new_URL targetUrl) l2 l3 ->
  Forall2 (keeps_unresolved new_URL targetUrl) l1 l3.
Proof.
  intros H. revert l3. induction H as [|x y l l' Hxy _ IH]; intros l3 H3.
  - inversion H3. constructor.
  - inversion H3 as [|y' z l2' l3' Hyz Hrest]; subst.
    constructor; [now apply (keeps_unresolved_trans x y z) | now apply IH].
Qed.

Lemma rewrite_links_keeps (d d' : node) :
  rewrite_links new_URL targetUrl d = Some d' ->
  Forall2 (keeps_unresolved new_URL targetUrl) (elements d) (elements d').
Proof.
  unfold rewrite_links. intros H.
  destruct (each_element (on_selected new_URL targetUrl "a" "href") d) as [d1|] eqn:E1;
    [|discriminate].
  destruct (each_element (on_resource new_URL targetUrl "src") d1) as [d2|] eqn:E2;
    [|discriminate].
  destruct (each_element (on_resource new_URL targetUrl "href") d2) as [d3|] eqn:E3;
    [|discriminate].
  apply each_element_keeps in E1; [|intros t a a'; apply on_selected_keeps].
  apply each_element_keeps in E2; [|intros t a a'; apply on_resource_keeps].
  apply each_element_keeps in E3; [|intros t a a'; apply on_resource_keeps].
  apply each_element_keeps in H; [|intros t a a'; apply on_selected_keeps].
  eauto using Forall2_keeps_trans.
Qed.

End Rewrite.

(** Adding nodes to the heads of a document loses none of its elements. *)
Lemma elements_on_heads (f : list node -> list node) (n : node) :
  (forall cs x, In x cs -> In x (f cs)) ->
  forall e, In e (elements n) -> In e (elements (on_heads f n)).
Proof.
  intros Hf. induction n as [d | t a cs IH] using node_induction; intros e He.
  - destruct He.
  - cbn [elements on_heads] in *. destruct He as [He | He]; [now left|]. right.
    apply in_flat_map in He. destruct He as (c & Hc & He).
    apply in_flat_map. exists (on_heads f c). split.
    + assert (Hm : In (on_heads f c) (List.map (on_heads f) cs)) by now apply in_map.
      destruct (String.eqb t "head"); [now apply Hf | exact Hm].
    + exact (proj1 (List.Forall_forall _ _) IH c Hc e He).
Qed.

Lemma Forall2_In_l {A B} (R : A -> B -> Prop) (l : list A) (l' : list B) (x : A) :
  Forall2 R l l' -> In x l -> exists y, In y l' /\ R x y.
Proof.
  induction 1 as [|a b l l' Hab _ IH]; intros Hin; [destruct Hin|].
  destruct Hin as [-> | Hin].
  - exists b. split; [now left | exact Hab].
  - destruct (IH Hin) as (y & Hy & Hr). exists y. split; [now right | exact Hr].
Qed.

(** C6, as the code has it.  The four rewriting loops change no tag and
    leave every attribute whose value does not resolve against the target URL
    with the value it had; so does the whole engine, which besides adds
    nodes to [head].  A value that does resolve is replaced by the ProxyURL of
    what it resolves to, whatever its scheme. *)
Theorem unresolved_attributes_kept
    (new_URL : string -> option string -> option URLObj)
    (parse_fragment : string -> list node) (targetUrl : URLObj) (doc : node) :
  (forall doc',
     rewrite_links new_URL targetUrl doc = Some doc' ->
     Forall2 (keeps_unresolved new_URL targetUrl) (elements doc) (elements doc'))
  /\ (forall out t a name v,
        rewrite_html new_URL parse_fragment targetUrl doc = Some out ->
        In (t, a) (elements doc) ->
        attr_get name a = Some v ->
        absoluteUrl new_URL targetUrl v = None ->
        exists a', In (t, a') (elements out) /\ attr_get name a' = Some v)
  /\ (forall a v abs p,
        attr_get "href" a = Some v ->
        truthy (absoluteUrl new_URL targetUrl v) = Some abs ->
        toProxyUrl new_URL abs = Some p ->
        exists a',
          on_selected new_URL targetUrl "a" "href" "a" a = Some a'
          /\ attr_get "href" a' = Some p).
Proof.
  split; [|split].
  - intros doc'. apply rewrite_links_keeps.
  - intros out t a name v H Hin Hv Hu. unfold rewrite_html in H.
    destruct (rewrite_links new_URL targetUrl
                (on_heads (fun cs => base_nodes parse_fragment targetUrl ++ cs) doc))
      as [d|] eqn:L; [|discriminate].
    injection H as <-. apply rewrite_links_keeps in L.
    apply (elements_on_heads (fun cs => base_nodes parse_fragment targetUrl ++ cs)) in Hin;
      [|intros cs x Hx; apply in_or_app; now right].
    destruct (Forall2_In_l _ _ _ _ L Hin) as ([t' a'] & Hin' & Ht & Hk).
    cbn in Ht. subst t'. exists a'. split.
    + apply elements_on_heads; [|exact Hin'].
      intros cs x Hx. apply in_or_app. now left.
    + now apply Hk.
  - intros a v abs p Hv Ha Hp. unfold on_selected, rewrite_attr, rewrite_value.
    cbn [String.eqb Ascii.eqb Bool.eqb]. rewrite Hv, Ha, Hp.
    eexists. split; [reflexivity | apply attr_get_set_same].
Qed.

(** A link whose host has a space stays as it is. *)
Lemma unresolved_attributes_kept_witness :
  let doc := Element "html" []
               [Element "head" [] [];
                Element "body" [] [Element "a" [("href", "http://bad host/")] [Text "x"]]] in
  absoluteUrl Fixture.new_URL Fixture.example_target "http://bad host/" = None
  /\ exists out,
       rewrite_html Fixture.new_URL Fixture.parse_fragment Fixture.example_target doc = Some out
       /\ exists a', In ("a", a') (elements out)
                     /\ attr_get "href" a' = Some "http://bad host/".
Proof.
  intros doc. split; [vm_compute; reflexivity|].
  destruct (unresolved_attributes_kept Fixture.new_URL Fixture.parse_fragment
              Fixture.example_target doc)
    as (_ & Kept & _).
  eexists. split; [vm_compute; reflexivity|].
  apply (Kept _ "a" [("href", "http://bad host/")] "href" "http://bad host/").
  - vm_compute. reflexivity.
  - cbn. do 3 right. now left.
  - reflexivity.
  - vm_compute. reflexivity.
Defined.

(** C6, as the claim states it, fails on its own examples: the URL class
    resolves [javascript:] and [mailto:] URLs as they are and the empty
    reference to the target URL, so the loop over anchors rewrites all
    three. *)
Lemma unresolved_attributes_kept_counterexample :
  rewrite_links Fixture.new_URL Fixture.example_target
    (Element "body" []
       [Element "a" [("href", "javascript:void(0)")] [];
        Element "a" [("href", "mailto:user@example.com")] [];
        Element "a" [("href", "")] []])
  = Some
      (Element "body" []
         [Element "a" [("href", "/proxy?url=javascript%3Avoid(0)")] [];
          Element "a" [("href", "/proxy?url=mailto%3Auser%40example.com")] [];
          Element "a" [("href", "/proxy?url=http%3A%2F%2Fexample.com%2Findex.html")] []]).
Proof. vm_compute. reflexivity. Qed.

(** * Further properties of the code *)

(** ** The codec of line 61 *)

Lemma hex_digit_unreserved (c : ascii) :
  let n := nat_of_ascii c in
  Codec.unreserved (Codec.hex_digit (n / 16)) = true
  /\ Codec.unreserved (Codec.hex_digit (n mod 16)) = true.
Proof. each_unit c; vm_compute; split; reflexivity. Qed.

(** X1. What line 61 writes after [url=] is made of unreserved units and
    percent signs only, and decoding it gives the encoded text back, for
    every text. *)
Theorem encodeURIComponent_round_trip (s : string) :
  Codec.form_decode (Codec.encodeURIComponent s) = s
  /\ forall c,
       In c (list_ascii_of_string (Codec.encodeURIComponent s)) ->
       Codec.unreserved c = true \/ c = "%"%char.
Proof.
  split; [apply form_decode_encode|].
  induction s as [|d s IH]; intros c Hc; [destruct Hc|].
  cbn [Codec.encodeURIComponent] in Hc. destruct (Codec.unreserved d) eqn:E.
  - destruct Hc as [<- | Hc]; [now left | now apply IH].
  - destruct (hex_digit_unreserved d) as [Hh Hl].
    destruct Hc as [<- | [<- | [<- | Hc]]]; [now right | now left | now left | now apply IH].
Qed.

Lemma query_get_proxy_query (name s : string) :
  Codec.query_get name ("url=" +:+ Codec.encodeURIComponent s)
  = if String.eqb "url" name then Some s else None.
Proof.
  unfold Codec.query_get.
  rewrite (split_avoids "&" ("url=" +:+ Codec.encodeURIComponent s)).
  2:{ change ("url=" +:+ Codec.encodeURIComponent s)
        with (String "u" (String "r" (String "l" (String "=" (Codec.encodeURIComponent s))))).
      cbn [avoids]. repeat split; try discriminate. apply encode_avoids. now left. }
  change ("url=" +:+ Codec.encodeURIComponent s)
    with (String "u" (String "r" (String "l" (String "=" (Codec.encodeURIComponent s))))).
  generalize (form_decode_encode s). generalize (Codec.encodeURIComponent s).
  intros enc Henc. cbn [List.filter JS.falsy negb List.map]. unfold Codec.pair_of.
  change (Codec.cut "=" (String "u" (String "r" (String "l" (String "=" enc)))))
    with (Some ("url", enc)).
  cbv iota beta. change (Codec.form_decode "url") with "url". rewrite Henc.
  cbn [List.find fst snd]. now destruct (String.eqb "url" name).
Qed.

(** X2. A ProxyURL built by [toProxyUrl] has one query parameter, [url]:
    whatever the encoded URL holds ([&], [=], [?], [#]), asking the
    ProxyURL for another parameter finds nothing, and asking for [url] finds
    the serialised URL. *)
Theorem proxy_url_single_parameter
    (new_URL : string -> option string -> option URLObj) (u p name : string) :
  toProxyUrl new_URL u = Some p ->
  exists parsed,
    new_URL u None = Some parsed
    /\ JS.startsWith p "/proxy?url=" = true
    /\ Codec.req_query name p = if String.eqb "url" name then Some (href parsed) else None.
Proof.
  unfold toProxyUrl. destruct (new_URL u None) as [parsed|]; [|discriminate].
  intros [= <-]. exists parsed. split; [reflexivity|]. split.
  - apply startsWith_iff. now eexists.
  - unfold Codec.req_query.
    change (Codec.cut "?" ("/proxy?url=" +:+ Codec.encodeURIComponent (href parsed)))
      with (Some ("/proxy", "url=" +:+ Codec.encodeURIComponent (href parsed))).
    apply query_get_proxy_query.
Qed.

Lemma proxy_url_single_parameter_witness :
  let u := "http://example.com/search?q=1&url=x#top" in
  toProxyUrl Fixture.new_URL u = Some "/proxy?url=http%3A%2F%2Fexample.com%2Fsearch%3Fq%3D1%26url%3Dx%23top"
  /\ exists parsed,
       Fixture.new_URL u None = Some parsed
       /\ JS.startsWith "/proxy?url=http%3A%2F%2Fexample.com%2Fsearch%3Fq%3D1%26url%3Dx%23top"
            "/proxy?url=" = true
       /\ Codec.req_query "q" "/proxy?url=http%3A%2F%2Fexample.com%2Fsearch%3Fq%3D1%26url%3Dx%23top"
          = None.
Proof.
  intros u. split; [vm_compute; reflexivity|].
  apply (proxy_url_single_parameter Fixture.new_URL u _ "q"). vm_compute. reflexivity.
Defined.

(** ** The request sent upstream (lines 84-121) *)

(** X3. The headers sent upstream never hold [host], [origin], [referer] or
    [accept-encoding]; they always hold a non-empty [user-agent], the
    client's own when it sent a non-empty one and the fixed default
    otherwise; every other header of the client is passed on as it is. *)
Theorem upstream_headers_spec (h : gmap string string) :
  (forall n, In n ["host"; "origin"; "referer"; "accept-encoding"] ->
             upstream_headers h !! n = None)
  /\ (exists ua,
        upstream_headers h !! "user-agent" = Some ua
        /\ ua <> EmptyString
        /\ (forall v, h !! "user-agent" = Some v -> v <> EmptyString -> ua = v)
        /\ (h !! "user-agent" = None \/ h !! "user-agent" = Some EmptyString ->
            ua = "Mozilla/5.0 (ProxyRender/1.0)"))
  /\ (forall n,
        ~ In n ["host"; "origin"; "referer"; "accept-encoding"; "user-agent"] ->
        upstream_headers h !! n = h !! n).
Proof.
  unfold upstream_headers. split; [|split].
  - intros n Hn. cbn in Hn.
    rewrite lookup_insert_ne by (intros <-; intuition discriminate).
    destruct Hn as [<- | [<- | [<- | [<- | []]]]];
      repeat first [apply lookup_delete_eq | rewrite lookup_delete_ne by discriminate].
  - rewrite !lookup_delete_ne by discriminate.
    eexists. split; [apply lookup_insert_eq|].
    destruct (h !! "user-agent") as [[|c v]|]; cbn [truthy JS.falsy].
    + split; [discriminate|]. split; [intros v' [= <-] N; contradiction|].
      intros _. reflexivity.
    + split; [discriminate|]. split; [intros v' [= <-] _; reflexivity|].
      intros [H | H]; discriminate.
    + split; [discriminate|]. split; [intros v' H; discriminate|].
      intros _. reflexivity.
  - intros n Hn. cbn in Hn.
    rewrite lookup_insert_ne by (intros <-; intuition).
    rewrite !lookup_delete_ne by (intros <-; intuition). reflexivity.
Qed.

Lemma body_size_nonneg (chunks : list string) : (0 <= body_size chunks)%Z.
Proof. induction chunks as [|c r IH]; cbn; [lia|]. fold (body_size r). lia. Qed.

Lemma exceeds_mono (lim : jsint) (a b : Z) :
  (a <= b)%Z -> exceeds a lim = true -> exceeds b lim = true.
Proof.
  destruct lim as [|m]; cbn; [discriminate|].
  intros L H. apply Z.ltb_lt in H. apply Z.ltb_lt. lia.
Qed.

(** The loop of lines 99-107 as one test on the whole body. *)
Lemma guard_body_total (lim : jsint) (size : Z) (chunks incoming : list string) :
  guard_body lim size chunks incoming =
  if (nonempty incoming && exceeds (size + body_size incoming) lim)%bool then None
  else Some (chunks ++ incoming).
Proof.
  revert size chunks. induction incoming as [|chunk rest IH]; intros size chunks.
  - cbn. now rewrite app_nil_r.
  - cbn [guard_body nonempty andb body_size fold_right]. fold (body_size rest).
    pose proof (body_size_nonneg rest) as P.
    destruct (exceeds (size + Z.of_nat (String.length chunk)) lim) eqn:E.
    + assert (L : (size + Z.of_nat (String.length chunk)
                   <= size + (Z.of_nat (String.length chunk) + body_size rest))%Z) by lia.
      now rewrite (exceeds_mono lim _ _ L E).
    + rewrite IH, <- app_assoc. cbn [app].
      replace (size + Z.of_nat (String.length chunk) + body_size rest)%Z
        with (size + (Z.of_nat (String.length chunk) + body_size rest))%Z by lia.
      destruct rest as [|c r]; [|reflexivity].
      cbn [nonempty andb body_size fold_right].
      now rewrite Z.add_0_r, E.
Qed.

(** The answer of the body guard in one expression. *)
Lemma read_body_total (cfg : Config) (req : Request) :
  read_body cfg req =
  (if (String.eqb (req_method req) "GET" || String.eqb (req_method req) "HEAD")%bool
   then Some None
   else if (nonempty (req_body req)
            && exceeds (body_size (req_body req)) (MAX_BODY_MB cfg))%bool
        then None
        else Some (Some (concat_chunks (req_body req)))).
Proof.
  unfold read_body. rewrite guard_body_total. cbn [app].
  rewrite Z.add_0_l.
  destruct (String.eqb (req_method req) "GET"), (String.eqb (req_method req) "HEAD");
    cbn [negb andb orb]; try reflexivity.
  now destruct (nonempty (req_body req) && exceeds (body_size (req_body req)) (MAX_BODY_MB cfg))%bool.
Qed.

(** X4. Reading the body: a GET or HEAD request sends none; any other
    request is answered 413 exactly when it has at least one chunk and its
    whole size is over the limit, and otherwise sends all its chunks, in
    order, as one body.  With a limit that is not a number nothing is ever
    turned down. *)
Theorem read_body_spec (cfg : Config) (req : Request) :
  read_body cfg req =
  (if (String.eqb (req_method req) "GET" || String.eqb (req_method req) "HEAD")%bool
   then Some None
   else if (nonempty (req_body req)
            && exceeds (body_size (req_body req)) (MAX_BODY_MB cfg))%bool
        then None
        else Some (Some (concat_chunks (req_body req))))
  /\ (MAX_BODY_MB cfg = NaN -> read_body cfg req <> None).
Proof.
  pose proof (read_body_total cfg req) as E.
  split; [exact E|].
  intros N. rewrite E, N. cbn [exceeds]. rewrite andb_false_r.
  now destruct (String.eqb (req_method req) "GET" || String.eqb (req_method req) "HEAD")%bool.
Qed.

Lemma read_body_spec_witness :
  let cfg := load_config {| env_MAX_BODY_MB := NaN; env_ALLOWLIST := None;
                            env_BLOCKLIST := None; env_ENABLE_REWRITE := None |} in
  let req := Fixture.request "POST" "/proxy?url=http%3A%2F%2Fexample.com%2F" ["ab"; "cd"] in
  MAX_BODY_MB cfg = NaN
  /\ read_body cfg req = Some (Some "abcd")
  /\ read_body cfg req <> None.
Proof.
  intros cfg req. split; [reflexivity|]. split; [reflexivity|].
  apply (read_body_spec cfg req). reflexivity.
Defined.

Section Upstream.

Variable new_URL : string -> option string -> option URLObj.
Variable fetch : FetchRequest -> option Upstream.
Variable load_html : string -> node.
Variable parse_fragment : string -> list node.
Variable cfg : Config.

(** The runs of [/proxy] that call [fetch]. *)
Lemma app_proxy_fetch (req : Request) (call : FetchRequest) :
  In (Fetch call) (fst (app_proxy new_URL fetch load_html parse_fragment cfg req)) ->
  req_method req <> "OPTIONS"
  /\ exists target targetUrl body,
       truthy (Codec.req_query "url" (req_url req)) = Some target
       /\ new_URL target None = Some targetUrl
       /\ JS.includes ["http:"; "https:"] (protocol targetUrl) = true
       /\ isAllowed cfg targetUrl = true
       /\ read_body cfg req = Some body
       /\ call = {| fetch_url := href targetUrl; fetch_method := req_method req;
                    fetch_headers := upstream_headers (req_headers req);
                    fetch_body := body |}
       /\ app_proxy new_URL fetch load_html parse_fragment cfg req
          = ([PolicyCheck (hostname targetUrl) true; Fetch call],
             match fetch call with
             | None => error_response 502 "Upstream fetch failed"
             | Some upstream => respond new_URL load_html parse_fragment cfg targetUrl upstream
             end).
Proof.
  unfold app_proxy, proxy_handler.
  destruct (String.eqb_spec (req_method req) "OPTIONS") as [O | O]; [intros []|].
  destruct (truthy (Codec.req_query "url" (req_url req))) as [target|] eqn:Q; [|intros []].
  destruct (new_URL target None) as [t|] eqn:U; [|intros []].
  destruct (JS.includes ["http:"; "https:"] (protocol t)) eqn:P; [|intros []].
  cbn [negb]. destruct (isAllowed cfg t) eqn:A; cbn [negb];
    [|intros [H | []]; discriminate].
  destruct (read_body cfg req) as [body|] eqn:B; [|intros [H | []]; discriminate].
  intros Hin. split; [exact O|]. exists target, t, body.
  assert (C : call = {| fetch_url := href t; fetch_method := req_method req;
                        fetch_headers := upstream_headers (req_headers req);
                        fetch_body := body |}).
  { destruct (fetch _); cbn in Hin; destruct Hin as [H | [H | []]];
      try discriminate; injection H as <-; reflexivity. }
  do 5 (split; [first [reflexivity | assumption]|]). split; [exact C|].
  rewrite <- C. now destruct (fetch call).
Qed.

End Upstream.

(** X5. What goes upstream.  [fetch] is called only for a request, not an
    OPTIONS one, whose [url] parameter is an http or https URL that the
    policy accepts; it is called once, after the policy check; and the call
    carries the serialised target URL, the method of the client, the
    client's headers as [upstream_headers] leaves them, and as body nothing
    for GET and HEAD and all chunks of the client's body, in order,
    otherwise. *)
Theorem fetch_call
    (new_URL : string -> option string -> option URLObj)
    (fetch : FetchRequest -> option Upstream) (load_html : string -> node)
    (parse_fragment : string -> list node)
    (cfg : Config) (req : Request) (call : FetchRequest) :
  In (Fetch call) (fst (app_proxy new_URL fetch load_html parse_fragment cfg req)) ->
  req_method req <> "OPTIONS"
  /\ exists target targetUrl,
       truthy (Codec.req_query "url" (req_url req)) = Some target
       /\ new_URL target None = Some targetUrl
       /\ JS.includes ["http:"; "https:"] (protocol targetUrl) = true
       /\ isAllowed cfg targetUrl = true
       /\ fst (app_proxy new_URL fetch load_html parse_fragment cfg req)
          = [PolicyCheck (hostname targetUrl) true; Fetch call]
       /\ call = {| fetch_url := href targetUrl; fetch_method := req_method req;
                    fetch_headers := upstream_headers (req_headers req);
                    fetch_body :=
                      if (String.eqb (req_method req) "GET"
                          || String.eqb (req_method req) "HEAD")%bool
                      then None else Some (concat_chunks (req_body req)) |}.
Proof.
  intros Hin. apply app_proxy_fetch in Hin.
  destruct Hin as (O & target & t & body & Q & U & P & A & B & C & R).
  split; [exact O|]. exists target, t. repeat (split; [assumption|]).
  split; [now rewrite R|]. rewrite C. f_equal.
  rewrite (read_body_total cfg req) in B.
  destruct (String.eqb (req_method req) "GET" || String.eqb (req_method req) "HEAD")%bool;
    [congruence|].
  destruct (nonempty (req_body req) && exceeds (body_size (req_body req)) (MAX_BODY_MB cfg))%bool;
    congruence.
Qed.

Lemma fetch_call_witness :
  let req := Fixture.request "POST" "/proxy?url=http%3A%2F%2Fexample.com%2Findex.html"
               ["a=1"; "&b=2"] in
  let upstream := {| up_status := 204; up_headers := []; up_body := "" |} in
  let call := {| fetch_url := "http://example.com/index.html"; fetch_method := "POST";
                 fetch_headers := upstream_headers ∅; fetch_body := Some "a=1&b=2" |} in
  fst (app_proxy Fixture.new_URL (Fixture.always upstream) Fixture.load_html Fixture.parse_fragment
         Fixture.default_config req)
  = [PolicyCheck "example.com" true; Fetch call]
  /\ req_method req <> "OPTIONS".
Proof.
  intros req upstream call.
  assert (T : fst (app_proxy Fixture.new_URL (Fixture.always upstream) Fixture.load_html Fixture.parse_fragment
                     Fixture.default_config req)
              = [PolicyCheck "example.com" true; Fetch call]) by (vm_compute; reflexivity).
  split; [exact T|].
  apply (fetch_call Fixture.new_URL (Fixture.always upstream) Fixture.load_html Fixture.parse_fragment
           Fixture.default_config req call).
  rewrite T. right. now left.
Defined.

(** X6. After the call.  When [fetch] fails the handler answers with status
    502 and the text [Upstream fetch failed]; when it answers, the handler
    goes on with that upstream response for the target URL it fetched, and
    on the Streaming Path it pipes the upstream body under the upstream
    status code. *)
Theorem upstream_outcome
    (new_URL : string -> option string -> option URLObj)
    (fetch : FetchRequest -> option Upstream) (load_html : string -> node)
    (parse_fragment : string -> list node)
    (cfg : Config) (req : Request) (call : FetchRequest) :
  In (Fetch call) (fst (app_proxy new_URL fetch load_html parse_fragment cfg req)) ->
  match fetch call with
  | None =>
      exists r,
        snd (app_proxy new_URL fetch load_html parse_fragment cfg req) = Responded r
        /\ status r = 502%Z /\ body r = Sent "Upstream fetch failed"
  | Some upstream =>
      exists targetUrl,
        fetch_url call = href targetUrl
        /\ snd (app_proxy new_URL fetch load_html parse_fragment cfg req)
           = respond new_URL load_html parse_fragment cfg targetUrl upstream
        /\ (select_path cfg (up_headers upstream) = StreamingPath ->
            forall r,
              snd (app_proxy new_URL fetch load_html parse_fragment cfg req) = Responded r ->
              status r = up_status upstream /\ body r = Piped (up_body upstream))
  end.
Proof.
  intros Hin. apply app_proxy_fetch in Hin.
  destruct Hin as (_ & target & t & body & _ & _ & _ & _ & _ & C & R).
  rewrite R. cbn [snd]. destruct (fetch call) as [upstream|];
    [|eexists; split; [reflexivity | now split]].
  exists t. split; [now rewrite C|]. split; [reflexivity|].
  intros S r Hr.
  pose proof (respond_cases new_URL load_html parse_fragment cfg t upstream) as Cs.
  rewrite Hr in Cs. destruct Cs as (h & _ & St & [(_ & _ & B) | (P & _)]);
    [now split | congruence].
Qed.

Lemma upstream_outcome_witness :
  let req := Fixture.request "GET" "/proxy?url=http%3A%2F%2Fexample.com%2Findex.html" [] in
  let call := {| fetch_url := "http://example.com/index.html"; fetch_method := "GET";
                 fetch_headers := upstream_headers ∅; fetch_body := None |} in
  let down : FetchRequest -> option Upstream := fun _ => None in
  In (Fetch call)
    (fst (app_proxy Fixture.new_URL down Fixture.load_html Fixture.parse_fragment Fixture.default_config req))
  /\ exists r,
       snd (app_proxy Fixture.new_URL down Fixture.load_html Fixture.parse_fragment
              Fixture.default_config req) = Responded r
       /\ status r = 502%Z /\ body r = Sent "Upstream fetch failed".
Proof.
  intros req call down.
  assert (T : In (Fetch call)
                (fst (app_proxy Fixture.new_URL down Fixture.load_html Fixture.parse_fragment
                        Fixture.default_config req))).
  { vm_compute. right. now left. }
  split; [exact T|].
  exact (upstream_outcome Fixture.new_URL down Fixture.load_html Fixture.parse_fragment Fixture.default_config
           req call T).
Defined.

(** ** The CORS headers (lines 22-28) on the answers of [/proxy] *)

(** A header of the answer other than [location] and [content-type] is as
    the relay loop left it. *)
Lemma respond_lookup
    (new_URL : string -> option string -> option URLObj) (load_html : string -> node)
    (parse_fragment : string -> list node)
    (cfg : Config) (targetUrl : URLObj) (upstream : Upstream) (r : Response) (n : string) :
  respond new_URL load_html parse_fragment cfg targetUrl upstream = Responded r ->
  n <> "location" -> n <> "content-type" ->
  headers r !! n = relay_headers (up_headers upstream) cors_headers !! n.
Proof.
  intros R NL NC.
  pose proof (respond_cases new_URL load_html parse_fragment cfg targetUrl upstream) as C.
  rewrite R in C. destruct C as (h & Hh & _ & Hr).
  apply relay_location_cases in Hh.
  assert (E : h !! n = relay_headers (up_headers upstream) cors_headers !! n).
  { destruct Hh as [-> | [p ->]]; [reflexivity|].
    unfold setHeader. now rewrite lookup_insert_ne by (intros <-; now apply NL). }
  destruct Hr as [(_ & -> & _) | (_ & -> & _)]; [exact E|].
  unfold setHeader. now rewrite lookup_insert_ne by (intros <-; now apply NC).
Qed.

(** X7. Every answer of [/proxy] has the three CORS headers.  On an answer
    that is not built from an upstream response (the 200 to OPTIONS and the
    400, 403, 413 and 502 answers) they are as the middleware set them; on
    an answer built from an upstream response each has the name and value of
    the upstream header of that name when upstream sent one, and is as the
    middleware set it otherwise. *)
Theorem cors_on_answers
    (new_URL : string -> option string -> option URLObj)
    (fetch : FetchRequest -> option Upstream) (load_html : string -> node)
    (parse_fragment : string -> list node)
    (cfg : Config) (req : Request) (r : Response) :
  snd (app_proxy new_URL fetch load_html parse_fragment cfg req) = Responded r ->
  ((forall call, In (Fetch call) (fst (app_proxy new_URL fetch load_html parse_fragment cfg req)) ->
                 fetch call = None) ->
   headers r !! "access-control-allow-origin" = Some ("Access-Control-Allow-Origin", "*")
   /\ headers r !! "access-control-allow-methods"
      = Some ("Access-Control-Allow-Methods", "GET,POST,HEAD,OPTIONS")
   /\ headers r !! "access-control-allow-headers"
      = Some ("Access-Control-Allow-Headers", "Content-Type,Range"))
  /\ (forall call upstream n,
        In (Fetch call) (fst (app_proxy new_URL fetch load_html parse_fragment cfg req)) ->
        fetch call = Some upstream ->
        In n ["access-control-allow-origin"; "access-control-allow-methods";
              "access-control-allow-headers"] ->
        headers r !! n =
        match last_named n (up_headers upstream) with
        | Some kv => Some kv
        | None => cors_headers !! n
        end
        /\ is_Some (headers r !! n)).
Proof.
  intros R. split.
  - intros NoUp. enough (E : headers r = cors_headers) by (rewrite E; now repeat split).
    revert R NoUp. unfold app_proxy, proxy_handler.
    destruct (String.eqb (req_method req) "OPTIONS"); [now intros [= <-]|].
    destruct (truthy (Codec.req_query "url" (req_url req))) as [target|];
      [|now intros [= <-]].
    destruct (new_URL target None) as [t|]; [|now intros [= <-]].
    destruct (negb (JS.includes ["http:"; "https:"] (protocol t))); [now intros [= <-]|].
    destruct (negb (isAllowed cfg t)); [now intros [= <-]|].
    destruct (read_body cfg req) as [body|]; [|now intros [= <-]].
    destruct (fetch _) as [upstream|] eqn:F; [|now intros [= <-]].
    intros _ NoUp. cbn in NoUp.
    specialize (NoUp _ (or_intror (or_introl eq_refl))). congruence.
  - intros call upstream n Hin F Hn.
    apply app_proxy_fetch in Hin.
    destruct Hin as (_ & target & t & body & _ & _ & _ & _ & _ & _ & E).
    rewrite E, F in R. cbn [snd] in R.
    assert (L : headers r !! n =
                match last_named n (up_headers upstream) with
                | Some kv => Some kv
                | None => cors_headers !! n
                end).
    { rewrite (respond_lookup _ _ _ _ _ _ _ n R), relay_headers_lookup.
      - cbn in Hn. destruct Hn as [<- | [<- | [<- | []]]]; reflexivity.
      - cbn in Hn. intros ->. intuition discriminate.
      - cbn in Hn. intros ->. intuition discriminate. }
    split; [exact L|]. rewrite L.
    destruct (last_named n (up_headers upstream)); [now eexists|].
    cbn in Hn. destruct Hn as [<- | [<- | [<- | []]]]; now eexists.
Qed.

Lemma cors_on_answers_witness :
  let req := Fixture.request "GET" "/proxy?url=http%3A%2F%2Fexample.com%2Findex.html" [] in
  let upstream := {| up_status := 200;
                     up_headers := [("access-control-allow-origin", "https://example.com")];
                     up_body := "" |} in
  exists r,
    snd (app_proxy Fixture.new_URL (Fixture.always upstream) Fixture.load_html Fixture.parse_fragment
           Fixture.default_config req) = Responded r
    /\ headers r !! "access-control-allow-origin"
       = Some ("access-control-allow-origin", "https://example.com")
    /\ is_Some (headers r !! "access-control-allow-methods").
Proof.
  intros req upstream. eexists. split; [vm_compute; reflexivity|].
  split; [vm_compute; reflexivity|].
  refine (proj2 (proj2 (cors_on_answers Fixture.new_URL (Fixture.always upstream)
                   Fixture.load_html Fixture.parse_fragment Fixture.default_config req _ _)
            {| fetch_url := "http://example.com/index.html"; fetch_method := "GET";
               fetch_headers := upstream_headers ∅; fetch_body := None |}
            upstream "access-control-allow-methods" _ _ _)).
  - vm_compute. reflexivity.
  - vm_compute. right. now left.
  - reflexivity.
  - cbn. right. now left.
Defined.

(** ** More on the policy (lines 14-15 and 34-49) *)

(** X8. A URL with an empty host name, as URLs without an authority have
    ([javascript:], [mailto:], [data:]), is outside the reach of the block
    list: the policy accepts it exactly when there is no allow-rule.  So
    with an empty allow list the upgrade handler tunnels to such a URL
    whatever the block list holds. *)
Theorem empty_host_policy
    (new_URL : string -> option string -> option URLObj) (cfg : Config) (u : URLObj) :
  hostname u = EmptyString ->
  (isAllowed cfg u = true <-> ALLOWLIST cfg = [])
  /\ (ALLOWLIST cfg = [] ->
      forall req url target,
        new_URL (req_url req) (Some "http://localhost") = Some url ->
        pathname url = "/ws" ->
        truthy (Codec.searchParams_get "url" url) = Some target ->
        new_URL target None = Some u ->
        upgrade_handler new_URL cfg req = ([PolicyCheck EmptyString true], Tunnel (origin u))).
Proof.
  intros H.
  assert (A : isAllowed cfg u = true <-> ALLOWLIST cfg = []).
  { unfold isAllowed. rewrite H, !matchesList_empty_host, andb_false_r.
    destruct (ALLOWLIST cfg); cbn; split; congruence. }
  split; [exact A|].
  intros E req url target Hu Hp Ht Hn. unfold upgrade_handler.
  rewrite Hu, Hp, Ht, Hn, H, (proj2 A E). reflexivity.
Qed.

Lemma empty_host_policy_witness :
  let cfg := load_config {| env_MAX_BODY_MB := Int 64; env_ALLOWLIST := None;
                            env_BLOCKLIST := Some "evil.com,*.evil.com";
                            env_ENABLE_REWRITE := None |} in
  let req := Fixture.request "GET" "/ws?url=javascript:void(0)" [] in
  let u := {| href := "javascript:void(0)"; protocol := "javascript:";
              hostname := EmptyString; origin := "null";
              pathname := "void(0)"; search := "" |} in
  hostname u = EmptyString
  /\ upgrade_handler Fixture.new_URL cfg req = ([PolicyCheck EmptyString true], Tunnel "null").
Proof.
  intros cfg req u. split; [reflexivity|].
  refine (proj2 (empty_host_policy Fixture.new_URL cfg u eq_refl) eq_refl req
            {| href := "http://localhost/ws?url=javascript:void(0)"; protocol := "http:";
               hostname := "localhost"; origin := "http://localhost"; pathname := "/ws";
               search := "?url=javascript:void(0)" |}
            "javascript:void(0)" _ _ _ _);
    vm_compute; reflexivity.
Defined.

Lemma toLowerCase_append (a b : string) :
  JS.toLowerCase (a +:+ b) = JS.toLowerCase a +:+ JS.toLowerCase b.
Proof.
  induction a as [|c a IH]; [reflexivity|].
  rewrite append_cons. cbn [JS.toLowerCase]. now rewrite IH, append_cons.
Qed.

Lemma toLowerCase_length (a : string) :
  String.length (JS.toLowerCase a) = String.length a.
Proof. induction a as [|c a IH]; cbn; [reflexivity | now rewrite IH]. Qed.

Lemma append_inj_length (a a' b b' : string) :
  String.length a = String.length a' -> a +:+ b = a' +:+ b' -> b = b'.
Proof.
  revert a'. induction a as [|c a IH]; intros [|c' a'] L E; try discriminate L.
  - exact E.
  - rewrite !append_cons in E. injection E as _ E. injection L as L. now apply (IH a').
Qed.

(** X9. Rules are compared unit by unit, letter case included.  The host
    names the URL class hands out are in lower case, and such a host name
    matches no rule that has an upper-case letter, exact or wildcard. *)
Theorem rules_case_sensitive (h : string) (l : list string) :
  JS.toLowerCase h = h ->
  (forall r, In r l -> JS.toLowerCase r <> r) ->
  matchesList h l = false.
Proof.
  intros Hh Hl. destruct (matchesList h l) eqn:M; [exfalso | reflexivity].
  unfold matchesList in M. destruct (JS.falsy h); [discriminate|].
  apply existsb_exists in M. destruct M as (r & Hin & T).
  apply (Hl r Hin). apply rule_test_iff in T.
  destruct T as [[_ ->] | (sfx & pre & -> & E)]; [exact Hh|].
  rewrite E, !toLowerCase_append in Hh.
  apply append_inj_length in Hh; [|apply toLowerCase_length].
  rewrite toLowerCase_append. change (JS.toLowerCase "*.") with "*.".
  change (JS.toLowerCase ".") with "." in Hh.
  apply append_inj_l in Hh. now rewrite Hh.
Qed.

Lemma rules_case_sensitive_witness :
  JS.toLowerCase "sub.example.com" = "sub.example.com"
  /\ matchesList "sub.example.com" ["Example.com"; "*.Example.com"] = false.
Proof.
  split; [reflexivity|].
  apply rules_case_sensitive; [reflexivity|].
  intros r [<- | [<- | []]]; discriminate.
Defined.

Lemma join_cons (sep a b : string) (l : list string) :
  join sep (a :: b :: l) = a +:+ sep +:+ join sep (b :: l).
Proof. reflexivity. Qed.

Lemma split_pieces (sep : ascii) (s : string) :
  join (String sep EmptyString) (JS.split sep s) = s
  /\ JS.split sep s <> []
  /\ forall piece, In piece (JS.split sep s) -> avoids sep piece.
Proof.
  induction s as [|c s (J & N & A)]; [cbn; repeat split; [discriminate | intros p [<- | []]; exact I]|].
  cbn [JS.split]. destruct (Ascii.eqb_spec c sep) as [-> | Hc].
  - split; [|split; [discriminate|]].
    + destruct (JS.split sep s) as [|w ws] eqn:E; [contradiction|].
      rewrite join_cons, J. reflexivity.
    + intros p [<- | Hp]; [exact I | now apply A].
  - destruct (JS.split sep s) as [|w ws] eqn:E; [contradiction|].
    split; [|split; [discriminate|]].
    + destruct ws as [|w' ws'].
      * cbn [join] in *. now rewrite J.
      * rewrite join_cons in J |- *. now rewrite append_cons, J.
    + intros p [<- | Hp].
      * split; [exact Hc | apply A; now left].
      * apply A. now right.
Qed.

(** X10. The rules read from a variable are the non-empty pieces between the
    commas of its value, as they stand (nothing is trimmed), in order: no
    rule is empty, no rule has a comma, and an unset or empty variable gives
    no rule. *)
Theorem rules_of_env_spec (v : option string) :
  (forall r, In r (rules_of_env v) -> r <> EmptyString /\ avoids "," r)
  /\ (v = None \/ v = Some EmptyString -> rules_of_env v = [])
  /\ (forall s,
        v = Some s ->
        join "," (JS.split "," s) = s
        /\ rules_of_env v = List.filter (fun r => negb (JS.falsy r)) (JS.split "," s)).
Proof.
  split; [|split].
  - intros r Hr. unfold rules_of_env in Hr. apply filter_In in Hr.
    destruct Hr as [Hin Hne]. split.
    + intros ->. discriminate.
    + revert Hin. apply split_pieces.
  - intros [-> | ->]; reflexivity.
  - intros s ->. split; [apply (split_pieces "," s)|].
    unfold rules_of_env. now destruct s.
Qed.

Lemma rules_of_env_spec_witness :
  rules_of_env (Some "example.com, example.org,,*.edu") = ["example.com"; " example.org"; "*.edu"]
  /\ join "," (JS.split "," "example.com, example.org,,*.edu") = "example.com, example.org,,*.edu".
Proof.
  split; [reflexivity|].
  apply (rules_of_env_spec (Some "example.com, example.org,,*.edu")). reflexivity.
Defined.

(** ** What the rewriting loops leave alone (lines 163-185) *)

Lemma each_element_Forall2 (R : string * attribs -> string * attribs -> Prop)
    (f : string -> attribs -> option attribs) (d d' : node) :
  (forall t a a', f t a = Some a' -> R (t, a) (t, a')) ->
  each_element f d = Some d' ->
  Forall2 R (elements d) (elements d').
Proof.
  intros Hf H. apply each_element_elements in H.
  induction H as [|[t a] [t' a'] l l' [Ht Ha] _ IH]; constructor; [|exact IH].
  cbn in Ht, Ha. subst t'. now apply Hf.
Qed.

Lemma Forall2_chain {A} (R : A -> A -> Prop) (l1 l2 l3 : list A) :
  (forall x y z, R x y -> R y z -> R x z) ->
  Forall2 R l1 l2 -> Forall2 R l2 l3 -> Forall2 R l1 l3.
Proof.
  intros T H. revert l3. induction H as [|x y l l' Hxy _ IH]; intros l3 H3.
  - inversion H3. constructor.
  - inversion H3 as [|y' z l2' l3' Hyz Hrest]; subst.
    constructor; [now apply (T x y z) | now apply IH].
Qed.

Lemma same_outside_trans (e1 e2 e3 : string * attribs) :
  same_outside e1 e2 -> same_outside e2 e3 -> same_outside e1 e3.
Proof.
  intros (T1 & K1 & A1) (T2 & K2 & A2). split; [congruence|]. split.
  - intros name Hn. rewrite K2 by (now rewrite <- T1). now apply K1.
  - intros Hn. rewrite A2 by (now rewrite <- T1). now apply A1.
Qed.

Lemma rewrite_attr_cases
    (new_URL : string -> option string -> option URLObj) (targetUrl : URLObj)
    (name v : string) (a a' : attribs) :
  rewrite_attr new_URL targetUrl name v a = Some a' ->
  a' = a \/ exists p, a' = attr_set name p a.
Proof.
  unfold rewrite_attr.
  destruct (rewrite_value new_URL targetUrl v) as [[p|]|]; [| |discriminate];
    intros [= <-]; [right; now exists p | now left].
Qed.

(** A loop that can only set [name0], and only on tags that [rewritable]
    knows with that name, stays inside its scope. *)
Lemma set_one_same_outside (name0 t : string) (a a' : attribs) :
  (a' = a \/ (rewritable t name0 = true /\ exists p, a' = attr_set name0 p a)) ->
  same_outside (t, a) (t, a').
Proof.
  intros [-> | (Hr & p & ->)]; (split; [reflexivity|]); cbn [fst snd].
  - split; reflexivity.
  - split.
    + intros name Hn. apply attr_get_set_other. intros ->. congruence.
    + intros Hn. specialize (Hn name0). congruence.
Qed.

Lemma on_selected_same_outside
    (new_URL : string -> option string -> option URLObj) (targetUrl : URLObj)
    (sel name0 t : string) (a a' : attribs) :
  rewritable sel name0 = true ->
  on_selected new_URL targetUrl sel name0 t a = Some a' ->
  same_outside (t, a) (t, a').
Proof.
  intros Hr H. apply (set_one_same_outside name0). unfold on_selected in H.
  destruct (String.eqb_spec t sel) as [-> | N]; [|left; congruence].
  destruct (attr_get name0 a) as [v|]; [|left; congruence].
  apply rewrite_attr_cases in H. destruct H as [-> | H]; [now left | now right].
Qed.

Lemma on_resource_same_outside
    (new_URL : string -> option string -> option URLObj) (targetUrl : URLObj)
    (name0 t : string) (a a' : attribs) :
  name0 = "src" \/ name0 = "href" ->
  on_resource new_URL targetUrl name0 t a = Some a' ->
  same_outside (t, a) (t, a').
Proof.
  intros Hn H. apply (set_one_same_outside name0). unfold on_resource in H.
  destruct (JS.includes resource_tags t) eqn:I; [|left; congruence].
  destruct (truthy (attr_get name0 a)) as [v|]; [|left; congruence].
  apply rewrite_attr_cases in H. destruct H as [-> | H]; [now left | right].
  split; [|exact H]. unfold rewritable. rewrite I.
  destruct Hn as [-> | ->]; cbn; now rewrite ?orb_true_r.
Qed.

(** X11. The scope of the four loops.  Rewriting adds and removes no
    element and changes no tag.  It can set [href] of [a], [src] and [href]
    of [img], [script], [link], [source], [video], [audio], and [action] of
    [form]; every other attribute keeps its value, and an element with any
    other tag ([iframe], say) keeps all its attributes. *)
Theorem rewrite_scope
    (new_URL : string -> option string -> option URLObj) (targetUrl : URLObj)
    (doc doc' : node) :
  rewrite_links new_URL targetUrl doc = Some doc' ->
  Forall2 same_outside (elements doc) (elements doc')
  /\ List.map fst (elements doc') = List.map fst (elements doc).
Proof.
  unfold rewrite_links. intros H.
  destruct (each_element (on_selected new_URL targetUrl "a" "href") doc) as [d1|] eqn:E1;
    [|discriminate].
  destruct (each_element (on_resource new_URL targetUrl "src") d1) as [d2|] eqn:E2;
    [|discriminate].
  destruct (each_element (on_resource new_URL targetUrl "href") d2) as [d3|] eqn:E3;
    [|discriminate].
  apply (each_element_Forall2 same_outside) in E1;
    [|intros t a a'; now apply on_selected_same_outside].
  apply (each_element_Forall2 same_outside) in E2;
    [|intros t a a'; apply on_resource_same_outside; now left].
  apply (each_element_Forall2 same_outside) in E3;
    [|intros t a a'; apply on_resource_same_outside; now right].
  apply (each_element_Forall2 same_outside) in H;
    [|intros t a a'; now apply on_selected_same_outside].
  assert (F : Forall2 same_outside (elements doc) (elements doc')).
  { apply (Forall2_chain _ _ _ _ same_outside_trans E1).
    apply (Forall2_chain _ _ _ _ same_outside_trans E2).
    exact (Forall2_chain _ _ _ _ same_outside_trans E3 H). }
  split; [exact F|].
  clear -F. induction F as [|x y l l' (T & _) _ IH]; [reflexivity|].
  cbn. now rewrite T, IH.
Qed.

Lemma rewrite_scope_witness :
  let doc := Element "body" []
               [Element "iframe" [("src", "/frame")] [];
                Element "a" [("href", "/about"); ("title", "/about")] []] in
  let doc' := Element "body" []
                [Element "iframe" [("src", "/frame")] [];
                 Element "a" [("href", "/proxy?url=http%3A%2F%2Fexample.com%2Fabout");
                              ("title", "/about")] []] in
  rewrite_links Fixture.new_URL Fixture.example_target doc = Some doc'
  /\ List.map fst (elements doc') = List.map fst (elements doc).
Proof.
  intros doc doc'.
  assert (R : rewrite_links Fixture.new_URL Fixture.example_target doc = Some doc')
    by (vm_compute; reflexivity).
  split; [exact R|].
  exact (proj2 (rewrite_scope Fixture.new_URL Fixture.example_target doc doc' R)).
Defined.

(** ** A relayed redirect, followed (lines 139-144, then 65-82) *)

(** X12. The [Location] that [/proxy] relays for a redirect carries, in its
    [url] parameter, the serialisation of the resolved URL; the policy was
    not asked about that URL, and it is asked when the client follows the
    redirect: if it rejects the host, the answer is 403 and nothing is
    fetched. *)
Theorem redirect_follow_up
    (new_URL : string -> option string -> option URLObj)
    (fetch : FetchRequest -> option Upstream) (load_html : string -> node)
    (parse_fragment : string -> list node)
    (cfg : Config) (targetUrl : URLObj) (upstream : Upstream)
    (loc abs p : string) (r : Response) :
  truthy (headers_get "location" (up_headers upstream)) = Some loc ->
  truthy (absoluteUrl new_URL targetUrl loc) = Some abs ->
  toProxyUrl new_URL abs = Some p ->
  respond new_URL load_html parse_fragment cfg targetUrl upstream = Responded r ->
  headers r !! "location" = Some ("Location", p)
  /\ exists parsed,
       new_URL abs None = Some parsed
       /\ Codec.req_query "url" p = Some (href parsed)
       /\ forall req again,
            req_url req = p ->
            href parsed <> EmptyString ->
            new_URL (href parsed) None = Some again ->
            JS.includes ["http:"; "https:"] (protocol again) = true ->
            isAllowed cfg again = false ->
            proxy_handler new_URL fetch load_html parse_fragment cfg req
            = ([PolicyCheck (hostname again) false], error_response 403 "Blocked by policy").
Proof.
  intros Hl Ha Hp R. split.
  - now apply (respond_rewrites_location new_URL load_html parse_fragment cfg targetUrl upstream loc abs).
  - unfold toProxyUrl in Hp. destruct (new_URL abs None) as [parsed|]; [|discriminate].
    injection Hp as <-. exists parsed. split; [reflexivity|].
    split; [apply req_query_encoded|].
    intros req again Hu Hne Hn Hs Hd. unfold proxy_handler.
    rewrite Hu, req_query_encoded. cbn [truthy].
    destruct (href parsed) as [|c s] eqn:E; [congruence|]. cbn [JS.falsy].
    now rewrite Hn, Hs, Hd.
Qed.

Lemma redirect_follow_up_witness :
  let cfg := load_config {| env_MAX_BODY_MB := Int 64; env_ALLOWLIST := None;
                            env_BLOCKLIST := Some "evil.com"; env_ENABLE_REWRITE := None |} in
  let upstream := {| up_status := 302; up_headers := [("location", "http://evil.com/")];
                     up_body := "" |} in
  let p := "/proxy?url=http%3A%2F%2Fevil.com%2F" in
  toProxyUrl Fixture.new_URL "http://evil.com/" = Some p
  /\ proxy_handler Fixture.new_URL (Fixture.always upstream) Fixture.load_html Fixture.parse_fragment cfg
       (Fixture.request "GET" p [])
     = ([PolicyCheck "evil.com" false], error_response 403 "Blocked by policy").
Proof.
  intros cfg upstream p. split; [vm_compute; reflexivity|].
  pose (r := {| status := 302;
                headers := setHeader "Location" p
                             (relay_headers (up_headers upstream) cors_headers);
                body := Piped "" |}).
  assert (H1 : truthy (headers_get "location" (up_headers upstream)) = Some "http://evil.com/")
    by (vm_compute; reflexivity).
  assert (H2 : truthy (absoluteUrl Fixture.new_URL Fixture.example_target "http://evil.com/")
               = Some "http://evil.com/") by (vm_compute; reflexivity).
  assert (H3 : toProxyUrl Fixture.new_URL "http://evil.com/" = Some p)
    by (vm_compute; reflexivity).
  assert (H4 : respond Fixture.new_URL Fixture.load_html Fixture.parse_fragment cfg Fixture.example_target upstream
               = Responded r) by (vm_compute; reflexivity).
  destruct (redirect_follow_up Fixture.new_URL (Fixture.always upstream) Fixture.load_html Fixture.parse_fragment
              cfg Fixture.example_target upstream "http://evil.com/" "http://evil.com/" p r
              H1 H2 H3 H4)
    as (_ & parsed & Hparsed & _ & Follow).
  injection Hparsed as <-.
  pose (again := {| href := "http://evil.com/"; protocol := "http:"; hostname := "evil.com";
                    origin := "http://evil.com"; pathname := "/"; search := "" |}).
  assert (H5 : href again <> EmptyString) by discriminate.
  assert (H6 : Fixture.new_URL (href again) None = Some again) by (vm_compute; reflexivity).
  assert (H7 : JS.includes ["http:"; "https:"] (protocol again) = true)
    by (vm_compute; reflexivity).
  assert (H8 : isAllowed cfg again = false) by (vm_compute; reflexivity).
  exact (Follow (Fixture.request "GET" p []) again eq_refl H5 H6 H7 H8).
Defined.

(** ** The nodes added to [head] (lines 160 and 188-212) *)

Lemma each_element_leaf (f : string -> attribs -> option attribs) (t : string) (a : attribs) :
  f t a = Some a -> each_element f (Element t a []) = Some (Element t a []).
Proof. intros H. rewrite each_element_Element, H. reflexivity. Qed.

(** A loop that is not about [html], [head] and [base] keeps the frame of a
    document whose head begins with a [base] element. *)
Lemma each_element_frame (f : string -> attribs -> option attribs)
    (ha hha ba : attribs) (cs : list node) (b d' : node) :
  (forall t a, In t ["html"; "head"; "base"] -> f t a = Some a) ->
  each_element f
    (Element "html" ha [Element "head" hha (Element "base" ba [] :: cs); b]) = Some d' ->
  exists cs' b',
    d' = Element "html" ha [Element "head" hha (Element "base" ba [] :: cs'); b'].
Proof.
  intros Hf. rewrite each_element_Element, Hf by (cbn; tauto).
  cbn [each_children]. rewrite each_element_Element, Hf by (cbn; tauto).
  cbn [each_children]. rewrite each_element_leaf by (apply Hf; cbn; tauto).
  destruct (each_children f cs) as [cs'|]; [|discriminate].
  destruct (each_element f b) as [b'|]; [|discriminate].
  intros [= <-]. now exists cs', b'.
Qed.

Lemma on_selected_frame
    (new_URL : string -> option string -> option URLObj) (targetUrl : URLObj)
    (sel name : string) :
  sel = "a" \/ sel = "form" ->
  forall t a, In t ["html"; "head"; "base"] ->
              on_selected new_URL targetUrl sel name t a = Some a.
Proof.
  intros Hs t a Ht. cbn in Ht. unfold on_selected.
  destruct Hs as [-> | ->]; destruct Ht as [<- | [<- | [<- | []]]]; reflexivity.
Qed.

Lemma on_resource_frame
    (new_URL : string -> option string -> option URLObj) (targetUrl : URLObj)
    (name : string) :
  forall t a, In t ["html"; "head"; "base"] ->
              on_resource new_URL targetUrl name t a = Some a.
Proof.
  intros t a Ht. cbn in Ht. unfold on_resource.
  destruct Ht as [<- | [<- | [<- | []]]]; reflexivity.
Qed.

(** X13. On a document of the shape the parser gives, [html] with [head]
    and a second child: when the parser reads the markup of line 160 as one
    [base] element, the head of the rewritten document begins with that
    element, with the attributes the parser gave it (no loop rewrites it),
    and ends with the injected script; the attributes of [html] and [head]
    are untouched. *)
Theorem head_injection
    (new_URL : string -> option string -> option URLObj)
    (parse_fragment : string -> list node) (targetUrl : URLObj)
    (ha hha ba : attribs) (hcs : list node) (b out : node) :
  base_nodes parse_fragment targetUrl = [Element "base" ba []] ->
  rewrite_html new_URL parse_fragment targetUrl
    (Element "html" ha [Element "head" hha hcs; b]) = Some out ->
  exists hcs' b',
    out = Element "html" ha
            [Element "head" hha (Element "base" ba [] :: hcs' ++ injected_script); b'].
Proof.
  intros B. unfold rewrite_html, rewrite_links. rewrite B.
  cbn [on_heads List.map String.eqb Ascii.eqb Bool.eqb app].
  set (f := on_heads (fun cs => Element "base" ba [] :: cs)).
  destruct (each_element (on_selected new_URL targetUrl "a" "href") _) as [d1|] eqn:E1;
    [|discriminate].
  apply each_element_frame in E1; [|apply on_selected_frame; now left].
  destruct E1 as (c1 & b1 & ->).
  destruct (each_element (on_resource new_URL targetUrl "src") _) as [d2|] eqn:E2;
    [|discriminate].
  apply each_element_frame in E2; [|apply on_resource_frame].
  destruct E2 as (c2 & b2 & ->).
  destruct (each_element (on_resource new_URL targetUrl "href") _) as [d3|] eqn:E3;
    [|discriminate].
  apply each_element_frame in E3; [|apply on_resource_frame].
  destruct E3 as (c3 & b3 & ->).
  destruct (each_element (on_selected new_URL targetUrl "form" "action") _) as [d4|] eqn:E4;
    [|discriminate].
  apply each_element_frame in E4; [|apply on_selected_frame; now right].
  destruct E4 as (c4 & b4 & ->).
  intros [= <-]. cbn [on_heads List.map String.eqb Ascii.eqb Bool.eqb app].
  now eexists _, _.
Qed.

Lemma head_injection_witness :
  let doc := Fixture.load_html "<a href='/about'>About</a>" in
  base_nodes Fixture.parse_fragment Fixture.example_target
  = [Element "base" [("href", "http://example.com/index.html")] []]
  /\ exists out hcs' b',
       rewrite_html Fixture.new_URL Fixture.parse_fragment Fixture.example_target doc
       = Some out
       /\ out = Element "html" []
                  [Element "head" []
                     (Element "base" [("href", "http://example.com/index.html")] []
                      :: hcs' ++ injected_script);
                   b'].
Proof.
  intros doc.
  assert (B : base_nodes Fixture.parse_fragment Fixture.example_target
              = [Element "base" [("href", "http://example.com/index.html")] []])
    by (vm_compute; reflexivity).
  split; [exact B|].
  destruct (rewrite_html Fixture.new_URL Fixture.parse_fragment Fixture.example_target doc)
    as [out|] eqn:R; [|vm_compute in R; discriminate R].
  destruct (head_injection Fixture.new_URL Fixture.parse_fragment Fixture.example_target
              [] [] [("href", "http://example.com/index.html")] []
              (Element "body" [] [Element "a" [("href", "/about")] [Text "About"]]) out B R)
    as (hcs' & b' & E).
  exists out, hcs', b'. split; [reflexivity | exact E].
Defined.

(** ** Growing the rule lists *)

Lemma matchesList_app (h : string) (l l' : list string) :
  matchesList h (l ++ l') = (matchesList h l || matchesList h l')%bool.
Proof.
  unfold matchesList. destruct (JS.falsy h); [reflexivity|]. apply existsb_app.
Qed.

(** X14. More block-rules never make the policy accept a host it rejected,
    and more allow-rules, added to a list that already has one, never make
    it reject a host it accepted. *)
Theorem policy_monotone (cfg : Config) (more : list string) (u : URLObj) :
  let blocked := {| MAX_BODY_MB := MAX_BODY_MB cfg; ALLOWLIST := ALLOWLIST cfg;
                    BLOCKLIST := BLOCKLIST cfg ++ more;
                    ENABLE_REWRITE := ENABLE_REWRITE cfg |} in
  let allowed := {| MAX_BODY_MB := MAX_BODY_MB cfg; ALLOWLIST := ALLOWLIST cfg ++ more;
                    BLOCKLIST := BLOCKLIST cfg;
                    ENABLE_REWRITE := ENABLE_REWRITE cfg |} in
  (isAllowed blocked u = true -> isAllowed cfg u = true)
  /\ (ALLOWLIST cfg <> [] -> isAllowed cfg u = true -> isAllowed allowed u = true).
Proof.
  intros blocked allowed. unfold isAllowed. cbn [BLOCKLIST ALLOWLIST blocked allowed].
  rewrite !matchesList_app. split.
  - destruct (matchesList (hostname u) (BLOCKLIST cfg)) eqn:B.
    + destruct (BLOCKLIST cfg) as [|b bl].
      * unfold matchesList in B. destruct (JS.falsy (hostname u)); discriminate B.
      * cbn. congruence.
    + rewrite andb_false_r.
      destruct (nonempty (BLOCKLIST cfg ++ more) && (false || matchesList (hostname u) more))%bool;
        [discriminate | trivial].
  - intros NE. destruct (ALLOWLIST cfg) as [|a al] eqn:A; [congruence|].
    cbn [nonempty app andb].
    destruct (nonempty (BLOCKLIST cfg) && matchesList (hostname u) (BLOCKLIST cfg))%bool;
      [discriminate|].
    destruct (matchesList (hostname u) (a :: al)); cbn; [trivial | discriminate].
Qed.

Lemma policy_monotone_witness :
  let cfg := load_config {| env_MAX_BODY_MB := Int 64; env_ALLOWLIST := Some "example.com";
                            env_BLOCKLIST := None; env_ENABLE_REWRITE := None |} in
  let u := {| href := "http://example.com/"; protocol := "http:"; hostname := "example.com";
              origin := "http://example.com"; pathname := "/"; search := "" |} in
  ALLOWLIST cfg <> [] /\ isAllowed cfg u = true
  /\ isAllowed {| MAX_BODY_MB := MAX_BODY_MB cfg; ALLOWLIST := ALLOWLIST cfg ++ ["*.edu"];
                  BLOCKLIST := BLOCKLIST cfg; ENABLE_REWRITE := ENABLE_REWRITE cfg |} u = true.
Proof.
  intros cfg u. split; [discriminate|]. split; [reflexivity|].
  apply (proj2 (policy_monotone cfg ["*.edu"] u)); [discriminate | reflexivity].
Defined.
